(** * Dynamic-Mock-Server: a shallow embedding of index.js

    The Express application of index.js is modelled piece by piece:
    - JavaScript values reaching the program (parsed JSON request bodies,
      parsed snapshot records) as the inductive [js]: numbers are IEEE
      doubles, an integral one as [JNum n], a finite non-integral one as
      [JFrac m e] (the value m * 2^e with [m] odd and [e < 0]) and the
      infinities as [JInf]; [-0] is not distinguished from [0], as no
      operation of the program tells them apart.  Strings are Stdlib
      strings of 8-bit characters (the Latin-1 range of UTF-16 code
      units).  An object lists its own properties without duplicates and
      in JavaScript's property order (array-index keys first, ascending,
      then the other keys in creation order), as [JSON.parse] builds it;
    - thrown exceptions as the [res] result type, and stateful code
      (the route [Map], the file system, the console log) as an explicit
      state-and-exception monad over [St];
    - JavaScript [Map]s as association lists that keep insertion order
      and overwrite in place, as [Map.prototype.set] does. *)

From Stdlib Require Import String Ascii ZArith List Bool Lia.
Import ListNotations.
Open Scope string_scope.
Open Scope Z_scope.
#[local] Set Warnings "-register-all".

(* ------------------------------------------------------------------ *)
(** ** JavaScript values *)

Inductive js : Type :=
| JUndef
| JNull
| JBool (b : bool)
| JNum (n : Z)
| JFrac (m e : Z)
| JInf (neg : bool)
| JStr (s : string)
| JArr (l : list js)
| JObj (fs : list (string * js)).

(** Truthiness, as used by [!x] and [x || d]. *)
Definition truthy (v : js) : bool :=
  match v with
  | JUndef | JNull => false
  | JBool b => b
  | JNum n => negb (n =? 0)
  | JFrac m _ => negb (m =? 0)
  | JInf _ => true
  | JStr s => negb (String.eqb s "")
  | JArr _ | JObj _ => true
  end.

(** [a || d] *)
Definition js_or (a d : js) : js := if truthy a then a else d.

(** [typeof v === 'object'] (true for [null], arrays and objects). *)
Definition typeof_object (v : js) : bool :=
  match v with
  | JNull | JArr _ | JObj _ => true
  | _ => false
  end.

(** Exceptions thrown by the modelled code. *)
Inductive exn : Type :=
| TypeError (msg : string)
| IOError (code : string)
| SyntaxError
| RangeError (code : string).

Inductive res (A : Type) : Type :=
| Ok (a : A)
| Throw (e : exn).
Arguments Ok {A} a.
Arguments Throw {A} e.

(** Property read [v.name]: [null] and [undefined] throw; primitives and
    arrays have none of the own properties the program reads
    ([path], [method], [status], [response], [headers]). *)
Definition get_prop (v : js) (name : string) : res js :=
  match v with
  | JUndef | JNull => Throw (TypeError "Cannot read properties of null or undefined")
  | JObj fs =>
      match find (fun kv => String.eqb (fst kv) name) fs with
      | Some (_, x) => Ok x
      | None => Ok JUndef
      end
  | _ => Ok JUndef
  end.

(** Destructuring default [{ x = d } = obj]: applies only to [undefined]. *)
Definition default_undef (v d : js) : js :=
  match v with JUndef => d | _ => v end.

(** [String.prototype.toUpperCase] on one character: [a-z] and the
    Latin-1 letters [U+00E0-U+00FE] (but the sign [U+00F7]) move 32 down,
    [U+00DF] becomes ["SS"].  The upper-case forms of [U+00B5] and
    [U+00FF] lie outside the 8-bit characters of the model; they are left
    as they are. *)
Definition upper_char (c : ascii) : string :=
  let n := nat_of_ascii c in
  if (Nat.leb 97 n && Nat.leb n 122)%bool then String (ascii_of_nat (n - 32)) EmptyString
  else if (Nat.leb 224 n && Nat.leb n 254 && negb (Nat.eqb n 247))%bool
  then String (ascii_of_nat (n - 32)) EmptyString
  else if Nat.eqb n 223 then "SS"
  else String c EmptyString.

Fixpoint upper (s : string) : string :=
  match s with
  | EmptyString => EmptyString
  | String c t => upper_char c ++ upper t
  end.

(** [v.toUpperCase()]: only strings have the method. *)
Definition js_toUpperCase (v : js) : res string :=
  match v with
  | JStr s => Ok (upper s)
  | JUndef | JNull => Throw (TypeError "Cannot read properties of null or undefined")
  | _ => Throw (TypeError "toUpperCase is not a function")
  end.

(** Decimal rendering of integers, as [String(n)]. *)
Fixpoint N_digits (fuel : nat) (n : N) (acc : string) : string :=
  match fuel with
  | O => acc
  | S f =>
      let acc' := String (ascii_of_N (48 + N.modulo n 10)) acc in
      if N.eqb (N.div n 10) 0 then acc' else N_digits f (N.div n 10) acc'
  end.

Definition N_to_dec (n : N) : string := N_digits (S (N.size_nat n)) n "".

Definition Z_to_dec (z : Z) : string :=
  if z <? 0 then "-" ++ N_to_dec (Z.to_N (- z)) else N_to_dec (Z.to_N z).

(* ------------------------------------------------------------------ *)
(** ** Maps with insertion order ([new Map()]) *)

Fixpoint map_get {V : Type} (k : string) (m : list (string * V)) : option V :=
  match m with
  | [] => None
  | (k', v) :: t => if String.eqb k k' then Some v else map_get k t
  end.

(** [m.set(k, v)]: overwrite in place, or append a new key at the end. *)
Fixpoint map_set {V : Type} (k : string) (v : V) (m : list (string * V))
  : list (string * V) :=
  match m with
  | [] => [(k, v)]
  | (k', v') :: t =>
      if String.eqb k k' then (k, v) :: t else (k', v') :: map_set k v t
  end.

(* ------------------------------------------------------------------ *)
(** ** HTTP responses *)

Inductive body : Type :=
| BJson (v : js)       (* res.json(v) *)
| BText (s : string)   (* res.send(s) for a string *)
| BNone.               (* a response without a body *)

(** A response: its status, the header fields the handler set with
    [res.set] (Express's own [X-Powered-By] and the fields [res.send]
    adds or rewrites, [Content-Type], [Content-Length] and [ETag], are
    left out), and its body. *)
Record http_resp : Type := mkResp {
  rs_status : js;
  rs_headers : list (string * string);
  rs_body : body
}.

(** [res.status(s).json(v)] after the headers [hs] were set. *)
Definition json_resp (s : Z) (hs : list (string * string)) (v : js) : http_resp :=
  mkResp (JNum s) hs (BJson v).

(* ------------------------------------------------------------------ *)
(** ** normalizePath *)

Definition starts_with_slash (s : string) : bool :=
  match s with
  | String c _ => Ascii.eqb c "/"%char
  | EmptyString => false
  end.

(** [function normalizePath(p) { if (!p) return '/';
      if (!p.startsWith('/')) return '/' + p; return p; }]
    Only strings have [startsWith]; a truthy non-string throws. *)
Definition normalizePath (p : js) : res string :=
  if negb (truthy p) then Ok "/"
  else match p with
       | JStr s => if starts_with_slash s then Ok s else Ok ("/" ++ s)
       | _ => Throw (TypeError "p.startsWith is not a function")
       end.

(* ------------------------------------------------------------------ *)
(** ** Rate limiter middleware *)

Inductive rl_outcome : Type :=
| RL_next                  (* next(): the request goes on *)
| RL_reply (r : http_resp). (* the middleware answers itself *)

(** The window [RATE_LIMIT_SECONDS] is taken as a whole number of
    seconds; a fractional, infinite or NaN value of
    [Number(process.env.RATE_LIMIT_SECONDS)] is outside this model. *)
Section RateLimiter.

Variable RATE_LIMIT_SECONDS : Z.
Variable RATE_LIMIT_EXEMPT : list string.

(** The middleware for a request from [ip] to [path], at wall-clock time
    [date_now_ms] (the value of [Date.now()]), on the map [lastRequest]. *)
Definition rate_limit (lastRequest : list (string * Z)) (ip path : string)
    (date_now_ms : Z) : rl_outcome * list (string * Z) :=
  if existsb (String.eqb path) RATE_LIMIT_EXEMPT then (RL_next, lastRequest)
  else
    let now := date_now_ms / 1000 in
    (* lastRequest.get(ip) || 0 *)
    let last := match map_get ip lastRequest with Some t => t | None => 0 end in
    if now - last <? RATE_LIMIT_SECONDS then
      let retryAfter := RATE_LIMIT_SECONDS - (now - last) in
      (RL_reply (json_resp 429 [("Retry-After", Z_to_dec retryAfter)]
                   (JObj [("error", JStr "Too many requests");
                          ("retry_after_seconds", JNum retryAfter)])),
       lastRequest)
    else (RL_next, map_set ip now lastRequest).

End RateLimiter.

(* ------------------------------------------------------------------ *)
(** ** Conversions: [String(v)], [Number(v)], [JSON.stringify] then [JSON.parse] *)

(** *** Doubles

    A finite double is [DFin m e], the value m * 2^e, normalised with [m]
    odd (or [DFin 0 0] for zero); [DInf neg] is an infinity. *)
Inductive dbl : Type :=
| DFin (m e : Z)
| DInf (neg : bool).

(** a / b rounded to the nearest integer, ties to even ([a >= 0], [b > 0]). *)
Definition div_rhe (a b : Z) : Z :=
  let q := a / b in
  match Z.compare (2 * (a mod b)) b with
  | Lt => q
  | Gt => q + 1
  | Eq => if Z.even q then q else q + 1
  end.

(** floor(log2 (a / b)) for [a, b > 0]. *)
Definition log2_ratio (a b : Z) : Z :=
  let e := Z.log2 a - Z.log2 b in
  if (if 0 <=? e then b * 2 ^ e <=? a else b <=? a * 2 ^ (- e)) then e else e - 1.

Fixpoint strip2 (fuel : nat) (m e : Z) : Z * Z :=
  match fuel with
  | O => (m, e)
  | S f => if Z.even m then strip2 f (m / 2) (e + 1) else (m, e)
  end.

Definition dnorm (m e : Z) : dbl :=
  if m =? 0 then DFin 0 0
  else let '(m', e') := strip2 (Z.to_nat (Z.log2 (Z.abs m)) + 1) m e in DFin m' e'.

(** The double nearest to the rational a / b ([b > 0]), ties to even,
    with 53-bit significands, subnormals down to 2^-1074 and overflow to
    an infinity: the rounding of IEEE 754 binary64. *)
Definition round_rat (a b : Z) : dbl :=
  if a =? 0 then DFin 0 0 else
  let x := Z.abs a in
  let e := Z.max (log2_ratio x b) (-1022) in
  let s := e - 52 in
  let q := if 0 <=? s then div_rhe x (b * 2 ^ s) else div_rhe (x * 2 ^ (- s)) b in
  if (0 <=? s) && (2 ^ 1024 <=? q * 2 ^ s) then DInf (a <? 0)
  else dnorm (if a <? 0 then - q else q) s.

Definition dbl_eqb (x y : dbl) : bool :=
  match x, y with
  | DFin m e, DFin m' e' => (m =? m') && (e =? e')
  | DInf n, DInf n' => Bool.eqb n n'
  | _, _ => false
  end.

Definition rat_of (m e : Z) : Z * Z :=
  if 0 <=? e then (m * 2 ^ e, 1) else (m, 2 ^ (- e)).

Definition ndigits (z : Z) : Z := Z.of_nat (String.length (Z_to_dec z)).

Definition pow10_le (k a b : Z) : bool :=
  if 0 <=? k then b * 10 ^ k <=? a else b <=? a * 10 ^ (- k).

(** The double nearest to s * 10^j. *)
Definition dec_dbl (s j : Z) : dbl :=
  if 0 <=? j then round_rat (s * 10 ^ j) 1 else round_rat s (10 ^ (- j)).

(** Number::toString, step 5: for the value a / b of [x], with
    10^(n-1) <= a / b < 10^n, a [k]-digit integer [s] such that
    s * 10^(n-k) is read back as [x], the nearer of the two candidates
    when both are (the even one on a tie); [n] moves up by one when [s]
    rounds up to 10^k. *)
Definition pick (x : dbl) (a b k n : Z) : option (Z * Z) :=
  let t := k - n in
  let '(num, den) := if 0 <=? t then (a * 10 ^ t, b) else (a, b * 10 ^ (- t)) in
  let lo := num / den in
  let hi := lo + 1 in
  let okl := dbl_eqb (dec_dbl lo (n - k)) x in
  let okh := dbl_eqb (dec_dbl hi (n - k)) x in
  let norm s := if s =? 10 ^ k then (10 ^ (k - 1), n + 1) else (s, n) in
  if okl && okh then
    match Z.compare (num - lo * den) (hi * den - num) with
    | Lt => Some (lo, n)
    | Gt => Some (norm hi)
    | Eq => if Z.even lo then Some (lo, n) else Some (norm hi)
    end
  else if okl then Some (lo, n) else if okh then Some (norm hi) else None.

(** The least [k] for which [pick] succeeds (17 digits always do). *)
Fixpoint shortest (fuel : nat) (x : dbl) (a b k n : Z) : Z * Z * Z :=
  match fuel with
  | O => ((a * 10 ^ (17 - n)) / b, 17, n)
  | S f => match pick x a b k n with
           | Some (s, n') => (s, k, n')
           | None => shortest f x a b (k + 1) n
           end
  end.

Fixpoint zeros (n : nat) : string :=
  match n with O => "" | S k => String "0" (zeros k) end.

(** Number::toString, steps 6-10: the digits [s] ([k] of them) placed
    for the decimal exponent [n]. *)
Definition fmt (s k n : Z) : string :=
  let ds := Z_to_dec s in
  if (k <=? n) && (n <=? 21) then ds ++ zeros (Z.to_nat (n - k))
  else if (0 <? n) && (n <=? 21) then
    substring 0 (Z.to_nat n) ds ++ "." ++ substring (Z.to_nat n) (Z.to_nat (k - n)) ds
  else if (-6 <? n) && (n <=? 0) then "0." ++ zeros (Z.to_nat (- n)) ++ ds
  else
    let e := n - 1 in
    let es := (if e <? 0 then "-" else "+") ++ Z_to_dec (Z.abs e) in
    if k =? 1 then ds ++ "e" ++ es
    else substring 0 1 ds ++ "." ++ substring 1 (Z.to_nat (k - 1)) ds ++ "e" ++ es.

(** [String(x)] for a double [x] (Number::toString with radix 10). *)
Definition dbl_to_string (x : dbl) : string :=
  match x with
  | DInf false => "Infinity"
  | DInf true => "-Infinity"
  | DFin m e =>
      if m =? 0 then "0" else
      let '(a, b) := rat_of (Z.abs m) e in
      let n0 := ndigits a - ndigits b in
      let n := if pow10_le n0 a b then n0 + 1 else n0 in
      let '(s, k, n') := shortest 17 (DFin (Z.abs m) e) a b 1 n in
      (if m <? 0 then "-" else "") ++ fmt s k n'
  end.

(** A double as a program value. *)
Definition js_of_dbl (d : dbl) : js :=
  match d with
  | DFin m e => if 0 <=? e then JNum (m * 2 ^ e) else JFrac m e
  | DInf n => JInf n
  end.

(** *** [String(v)] *)

(** [String(v)]; arrays join their elements with commas, [null] and
    [undefined] elements rendering as the empty string.  An integer below
    2^53 in magnitude prints as its decimal digits; larger ones go through
    the shortest-digits rule of Number::toString. *)
Fixpoint js_String (v : js) : string :=
  match v with
  | JUndef => "undefined"
  | JNull => "null"
  | JBool true => "true"
  | JBool false => "false"
  | JNum n => if Z.abs n <? 2 ^ 53 then Z_to_dec n else dbl_to_string (round_rat n 1)
  | JFrac m e => dbl_to_string (DFin m e)
  | JInf n => dbl_to_string (DInf n)
  | JStr s => s
  | JArr l =>
      String.concat ","
        (map (fun x => match x with JUndef | JNull => "" | _ => js_String x end) l)
  | JObj _ => "[object Object]"
  end.

(** *** [Number(v)] *)

(** White space and line terminators of the 8-bit range, as removed by
    [String.prototype.trim] and StringToNumber. *)
Definition is_space (c : ascii) : bool :=
  let n := nat_of_ascii c in
  (Nat.eqb n 32 || (Nat.leb 9 n && Nat.leb n 13) || Nat.eqb n 160)%bool.

Fixpoint drop_spaces (s : string) : string :=
  match s with
  | String c t => if is_space c then drop_spaces t else s
  | EmptyString => EmptyString
  end.

Fixpoint rev_string (s : string) : string :=
  match s with
  | EmptyString => EmptyString
  | String c t => rev_string t ++ String c EmptyString
  end.

(** [s.trim()] *)
Definition trim (s : string) : string :=
  rev_string (drop_spaces (rev_string (drop_spaces s))).

(** The value of a digit in base 16 or less; 99 for any other character. *)
Definition digit_val (c : ascii) : Z :=
  let n := Z.of_nat (nat_of_ascii c) in
  if (48 <=? n) && (n <=? 57) then n - 48
  else if (97 <=? n) && (n <=? 102) then n - 87
  else if (65 <=? n) && (n <=? 70) then n - 55
  else 99.

(** The longest prefix of digits of base [base]: its value (on top of
    [acc]), its length (on top of [cnt]) and the rest. *)
Fixpoint take_digits (base : Z) (l : list ascii) (acc : Z) (cnt : Z)
  : Z * Z * list ascii :=
  match l with
  | c :: t =>
      if digit_val c <? base then take_digits base t (acc * base + digit_val c) (cnt + 1)
      else (acc, cnt, l)
  | [] => (acc, cnt, [])
  end.

(** The double nearest to f * 10^x ([f >= 0]); values of 10^309 and more
    overflow, values below 10^-324 round to zero. *)
Definition dec_value (f x : Z) : dbl :=
  if f =? 0 then DFin 0 0
  else if 310 <=? x + ndigits f then DInf false
  else if x + ndigits f <=? -324 then DFin 0 0
  else if 0 <=? x then round_rat (f * 10 ^ x) 1 else round_rat f (10 ^ (- x)).

(** StrUnsignedDecimalLiteral without [Infinity]:
    digits [. digits] [(e|E) [+|-] digits], with at least one digit
    before the exponent. *)
Definition unsigned_decimal (l : list ascii) : option dbl :=
  let '(i, ni, r1) := take_digits 10 l 0 0 in
  let '(f, nf, r2) :=
    match r1 with
    | "."%char :: t => take_digits 10 t i 0
    | _ => (i, 0, r1)
    end in
  if ni + nf =? 0 then None else
  match r2 with
  | [] => Some (dec_value f (- nf))
  | c :: t =>
      if (Ascii.eqb c "e" || Ascii.eqb c "E")%bool then
        let '(sg, t') := match t with
                         | "+"%char :: u => (1, u)
                         | "-"%char :: u => (-1, u)
                         | _ => (1, t)
                         end in
        let '(x, nx, r3) := take_digits 10 t' 0 0 in
        match r3 with
        | [] => if nx =? 0 then None else Some (dec_value f (sg * x - nf))
        | _ => None
        end
      else None
  end.

Definition neg_dbl (d : dbl) : dbl :=
  match d with DFin m e => DFin (- m) e | DInf n => DInf (negb n) end.

(** [0x], [0o] and [0b] literals: at least one digit, nothing after. *)
Definition non_decimal (base : Z) (l : list ascii) : option dbl :=
  let '(v, n, r) := take_digits base l 0 0 in
  match r with
  | [] => if n =? 0 then None else Some (round_rat v 1)
  | _ => None
  end.

(** StringToNumber; [None] is NaN.  The blank string is 0. *)
Definition string_to_number (s : string) : option dbl :=
  match list_ascii_of_string (trim s) with
  | [] => Some (DFin 0 0)
  | "0"%char :: ("x" | "X")%char :: t => non_decimal 16 t
  | "0"%char :: ("o" | "O")%char :: t => non_decimal 8 t
  | "0"%char :: ("b" | "B")%char :: t => non_decimal 2 t
  | l =>
      let '(neg, u) := match l with
                       | "+"%char :: u => (false, u)
                       | "-"%char :: u => (true, u)
                       | _ => (false, l)
                       end in
      let d := if String.eqb (string_of_list_ascii u) "Infinity" then Some (DInf false)
               else unsigned_decimal u in
      match d with
      | Some d => Some (if neg then neg_dbl d else d)
      | None => None
      end
  end.

(** [Number(v)]: a number value ([JNum], [JFrac] or [JInf]), [None]
    for NaN.  Objects convert through their string form
    ["[object Object]"], arrays through [String(v)]. *)
Definition js_Number (v : js) : option js :=
  match v with
  | JUndef => None
  | JNull => Some (JNum 0)
  | JBool b => Some (JNum (if b then 1 else 0))
  | JNum _ | JFrac _ _ | JInf _ => Some v
  | JStr s => option_map js_of_dbl (string_to_number s)
  | JArr _ => option_map js_of_dbl (string_to_number (js_String v))
  | JObj _ => None
  end.

(** [Number(status) || 200] *)
Definition number_or_200 (v : js) : js :=
  match js_Number v with
  | Some n => if truthy n then n else JNum 200
  | None => JNum 200
  end.

(** [JSON.parse(JSON.stringify(v))] for an array or object [v]:
    [undefined] members of objects are dropped, [undefined] elements of
    arrays become [null], and so do the infinities. *)
Fixpoint jround (v : js) : js :=
  match v with
  | JInf _ => JNull
  | JArr l => JArr (map (fun x => match x with JUndef => JNull | _ => jround x end) l)
  | JObj fs =>
      JObj (flat_map (fun '(k, x) => match x with JUndef => [] | _ => [(k, jround x)] end) fs)
  | _ => v
  end.

(* ------------------------------------------------------------------ *)
(** ** Program state and the state-and-exception monad *)

(** A stored mock: the object put into [routes]. [method] and [path] are
    strings on every path that stores one; the other fields are whatever
    value the request body or the snapshot carried. *)
Record route : Type := mkRoute {
  r_method : string;
  r_path : string;
  r_status : js;
  r_response : js;
  r_headers : js
}.

(** Contents of a file: the text of a JSON document (read back by
    [JSON.parse] as [v]), text that [JSON.parse] rejects, or a file
    whose read fails. *)
Inductive fcontent : Type :=
| Doc (v : js)
| Garbage
| Unreadable.

(** File-system faults, fixed by the environment: [write_fault p] is
    the error with which [fs.writeFile] of the path [p] fails, if it
    does (a missing or unwritable directory: ENOENT, EACCES, EROFS; a
    directory in the way: EISDIR; a full disk: ENOSPC), with [true] when
    the failed write leaves a truncated file behind; [rename_fault src dst]
    is the error with which [fs.rename] of an existing [src] onto [dst]
    fails, if it does. *)
Record faults : Type := mkFaults {
  write_fault : string -> option (string * bool);
  rename_fault : string -> string -> option string
}.

(** No fault at all. *)
Definition no_faults : faults := mkFaults (fun _ => None) (fun _ _ => None).

Record St : Type := mkSt {
  routes : list (string * route);     (* const routes = new Map() *)
  files : list (string * fcontent);   (* the file system *)
  fs_faults : faults;                 (* how file operations fail *)
  log : list string                   (* console.error output *)
}.

Definition M (A : Type) : Type := St -> res A * St.

Definition ret {A} (a : A) : M A := fun s => (Ok a, s).

Definition bind {A B} (m : M A) (f : A -> M B) : M B :=
  fun s => match m s with
           | (Ok a, s') => f a s'
           | (Throw e, s') => (Throw e, s')
           end.

Definition lift {A} (r : res A) : M A := fun s => (r, s).

(** [try { m } catch (err) { h(err) }]: effects of [m] before the throw
    are kept. *)
Definition try_catch {A} (m : M A) (h : exn -> M A) : M A :=
  fun s => match m s with
           | (Throw e, s') => h e s'
           | r => r
           end.

Notation "x <- m ;; k" := (bind m (fun x => k))
  (at level 61, m at next level, right associativity).

Fixpoint forEachM {A} (f : A -> M unit) (l : list A) : M unit :=
  match l with
  | [] => ret tt
  | x :: t => _ <- f x ;; forEachM f t
  end.

Definition get_routes : M (list (string * route)) := fun s => (Ok (routes s), s).

Definition set_route (k : string) (v : route) : M unit :=
  fun s => (Ok tt, mkSt (map_set k v (routes s)) (files s) (fs_faults s) (log s)).

Definition console_error (msg : string) : M unit :=
  fun s => (Ok tt, mkSt (routes s) (files s) (fs_faults s) (log s ++ [msg])).

(** [fs] and [existsSync] *)
Definition map_del {V} (k : string) (m : list (string * V)) : list (string * V) :=
  filter (fun kv => negb (String.eqb (fst kv) k)) m.

Definition existsSync (p : string) : M bool :=
  fun s => (Ok (match map_get p (files s) with Some _ => true | None => false end), s).

Definition readFile (p : string) : M fcontent :=
  fun s => match map_get p (files s) with
           | None => (Throw (IOError "ENOENT"), s)
           | Some Unreadable => (Throw (IOError "EACCES"), s)
           | Some c => (Ok c, s)
           end.

(** [fs.writeFile(p, c)]: creates or replaces [p]. *)
Definition writeFile (p : string) (c : fcontent) : M unit :=
  fun s => match write_fault (fs_faults s) p with
           | Some (code, false) => (Throw (IOError code), s)
           | Some (code, true) =>
               (Throw (IOError code),
                mkSt (routes s) (map_set p Garbage (files s)) (fs_faults s) (log s))
           | None => (Ok tt, mkSt (routes s) (map_set p c (files s)) (fs_faults s) (log s))
           end.

(** [fs.rename(src, dst)]: replaces [dst] by [src]. *)
Definition rename (src dst : string) : M unit :=
  fun s => match map_get src (files s) with
           | None => (Throw (IOError "ENOENT"), s)
           | Some c =>
               match rename_fault (fs_faults s) src dst with
               | Some code => (Throw (IOError code), s)
               | None =>
                   (Ok tt, mkSt (routes s) (map_set dst c (map_del src (files s)))
                             (fs_faults s) (log s))
               end
           end.

Definition JSON_parse (raw : fcontent) : res js :=
  match raw with
  | Doc v => Ok v
  | _ => Throw SyntaxError
  end.

(* ------------------------------------------------------------------ *)
(** ** Persistence, load and the request handlers *)

(** The temporary file name of [atomicWriteFile]:
    [`${path}.${Date.now()}.tmp`]. *)
Definition tmp_name (path : string) (date_now_ms : Z) : string :=
  path ++ "." ++ Z_to_dec date_now_ms ++ ".tmp".

(** [async function atomicWriteFile(path, data)] *)
Definition atomicWriteFile (path : string) (data : fcontent) (date_now_ms : Z)
  : M unit :=
  let tmp := tmp_name path date_now_ms in
  _ <- writeFile tmp data ;;
  rename tmp path.

(** One element of the array written by [persistRoutes]. *)
Definition snapshot_record (v : route) : js :=
  JObj [("path", JStr (r_path v)); ("method", JStr (r_method v));
        ("status", r_status v); ("response", r_response v);
        ("headers", js_or (r_headers v) (JObj []))].


(** The key of [routes]: [`${method} ${path}`]. *)
Definition route_key (m p : string) : string := m ++ " " ++ p.

Section App.

(** [DATA_FILE], read from the environment at startup. *)
Variable DATA_FILE : string.

(** [async function persistRoutes()]; the file receives the text of
    [JSON.stringify(arr, null, 2)], which [JSON.parse] reads back as
    [jround (JArr arr)]. *)
Definition persistRoutes (date_now_ms : Z) : M unit :=
  tbl <- get_routes ;;
  let arr := map (fun kv => snapshot_record (snd kv)) tbl in
  atomicWriteFile DATA_FILE (Doc (jround (JArr arr))) date_now_ms.

(** Line 39, the first [forEach] of [loadRoutes]: the key is computed
    and discarded. *)
Definition load_key (item : js) : M unit :=
  m <- lift (get_prop item "method") ;;
  mu <- lift (js_toUpperCase (js_or m (JStr "GET"))) ;;
  p <- lift (get_prop item "path") ;;
  np <- lift (normalizePath p) ;;
  let _ := route_key mu np in
  ret tt.

(** Lines 45-54, the second [forEach] of [loadRoutes]. *)
Definition load_item (item : js) : M unit :=
  m <- lift (get_prop item "method") ;;
  method <- lift (js_toUpperCase (js_or m (JStr "GET"))) ;;
  p <- lift (get_prop item "path") ;;
  path <- lift (normalizePath p) ;;
  status <- lift (get_prop item "status") ;;
  response <- lift (get_prop item "response") ;;
  headers <- lift (get_prop item "headers") ;;
  set_route (route_key method path)
    (mkRoute method path (js_or status (JNum 200)) response
       (js_or headers (JObj []))).

(** [async function loadRoutes()] *)
Definition loadRoutes : M unit :=
  try_catch
    (ex <- existsSync DATA_FILE ;;
     if negb ex then ret tt else
     raw <- readFile DATA_FILE ;;
     parsed <- lift (JSON_parse raw) ;;
     _ <- (match parsed with JArr items => forEachM load_key items | _ => ret tt end) ;;
     match parsed with JArr items => forEachM load_item items | _ => ret tt end)
    (fun _ => console_error "Failed to load routes:").

Definition resp_400 : http_resp :=
  json_resp 400 [] (JObj [("error", JStr "path and response required")]).

Definition resp_500 : http_resp :=
  json_resp 500 [] (JObj [("error", JStr "Failed to persist route")]).

Definition resp_registered (m p : string) : http_resp :=
  json_resp 200 [] (JObj [("message", JStr "Registered"); ("method", JStr m);
                          ("path", JStr p)]).

Definition is_undef (v : js) : bool := match v with JUndef => true | _ => false end.

(** [app.post('/register', async (req, res) => ...)] on the parsed body
    [req_body]; [date_now_ms] is the clock read by [atomicWriteFile].
    A [Throw] result is a rejected handler promise: no response. *)
Definition register (req_body : js) (date_now_ms : Z) : M http_resp :=
  path <- lift (get_prop req_body "path") ;;
  method0 <- lift (get_prop req_body "method") ;;
  response <- lift (get_prop req_body "response") ;;
  status0 <- lift (get_prop req_body "status") ;;
  headers0 <- lift (get_prop req_body "headers") ;;
  let method := default_undef method0 (JStr "GET") in
  let status := default_undef status0 (JNum 200) in
  let headers := default_undef headers0 (JObj []) in
  if (negb (truthy path) || is_undef response)%bool then ret resp_400 else
  p <- lift (normalizePath path) ;;
  m <- lift (js_toUpperCase method) ;;
  let key := route_key m p in
  _ <- set_route key (mkRoute m p (number_or_200 status) response headers) ;;
  failed <- try_catch (_ <- persistRoutes date_now_ms ;; ret None)
              (fun _ => _ <- console_error "Failed to persist routes:" ;;
                        ret (Some resp_500)) ;;
  match failed with
  | Some r => ret r
  | None => ret (resp_registered m p)
  end.


End App.

(* ------------------------------------------------------------------ *)
(** ** The catch-all handler *)

(** HTTP token characters (RFC 7230 tchar), checked by Node's
    [setHeader] on header names. *)
Definition tchar (c : ascii) : bool :=
  let n := nat_of_ascii c in
  (Nat.leb 48 n && Nat.leb n 57) || (Nat.leb 65 n && Nat.leb n 90) ||
  (Nat.leb 97 n && Nat.leb n 122) ||
  existsb (Ascii.eqb c) (list_ascii_of_string "!#$%&'*+-.^_`|~").

Definition valid_header_name (k : string) : bool :=
  negb (String.eqb k "") && forallb tchar (list_ascii_of_string k).

(** Characters Node refuses in header values: controls other than TAB,
    and DEL (all other 8-bit characters are accepted). *)
Definition valid_header_value (v : string) : bool :=
  forallb (fun c => let n := nat_of_ascii c in
                    Nat.eqb n 9 || (Nat.leb 32 n && negb (Nat.eqb n 127)))
          (list_ascii_of_string v).

(** [toLowerCase] on the ASCII letters (header names that reach it are
    tokens, hence ASCII). *)
Definition lower_ascii (c : ascii) : ascii :=
  let n := nat_of_ascii c in
  if (Nat.leb 65 n && Nat.leb n 90)%bool then ascii_of_nat (n + 32) else c.

Definition lower (s : string) : string :=
  string_of_list_ascii (map lower_ascii (list_ascii_of_string s)).

(** [s.startsWith(p)] *)
Definition starts_with (p s : string) : bool :=
  String.eqb (substring 0 (String.length p) s) p.

(** [/;\s*charset\s*=/.test(v)] *)
Fixpoint has_charset (v : string) : bool :=
  match v with
  | EmptyString => false
  | String c t =>
      (Ascii.eqb c ";"%char &&
       (let u := drop_spaces t in
        starts_with "charset" u &&
        starts_with "=" (drop_spaces (substring 7 (String.length u) u))))
      || has_charset t
  end.

(** [mime.charsets.lookup(v.split(';')[0])]: UTF-8 for
    [/^text\/|^application\/(javascript|json)/i]. *)
Definition utf8_type (v : string) : bool :=
  let l := lower v in
  starts_with "text/" l || starts_with "application/javascript" l ||
  starts_with "application/json" l.

(** The value Express 4's [res.set(field, value)] hands to [setHeader]:
    a [Content-Type] (any case) with no charset parameter and a text,
    JavaScript or JSON type gets ["; charset=utf-8"] appended. *)
Definition express_header_value (k v : string) : string :=
  if String.eqb (lower k) "content-type" && negb (has_charset v) && utf8_type v
  then v ++ "; charset=utf-8" else v.

(** [k] is an array index: the canonical decimal form of a number below
    2^32 - 1. *)
Fixpoint digits_val (s : string) (acc : Z) : option Z :=
  match s with
  | EmptyString => Some acc
  | String c t =>
      let n := nat_of_ascii c in
      if (Nat.leb 48 n && Nat.leb n 57)%bool
      then digits_val t (acc * 10 + Z.of_nat (n - 48)) else None
  end.

Definition array_index (k : string) : option Z :=
  match digits_val k 0 with
  | Some n => if String.eqb (Z_to_dec n) k && (n <? 2 ^ 32 - 1) then Some n else None
  | None => None
  end.

(** Adding a new key to a JavaScript object: an array index goes among
    the array indices in ascending order, any other key at the end. *)
Fixpoint obj_add {V} (key : string) (v : V) (hs : list (string * V))
  : list (string * V) :=
  match hs with
  | [] => [(key, v)]
  | (k', v') :: t =>
      match array_index key, array_index k' with
      | Some i, Some j => if i <? j then (key, v) :: hs else (k', v') :: obj_add key v t
      | Some _, None => (key, v) :: hs
      | None, _ => (k', v') :: obj_add key v t
      end
  end.

(** Node's header store: the object [headers] keyed by the lowercased
    name, each entry holding the name as last given and the value.  The
    list holds [(name, value)] in the object's key order. *)
Fixpoint hdr_get (k : string) (hs : list (string * string)) : option string :=
  match hs with
  | [] => None
  | (k', v) :: t => if String.eqb (lower k) (lower k') then Some v else hdr_get k t
  end.

Fixpoint hdr_replace (k v : string) (hs : list (string * string))
  : option (list (string * string)) :=
  match hs with
  | [] => None
  | (k', v') :: t =>
      if String.eqb (lower k) (lower k') then Some ((k, v) :: t)
      else option_map (cons (k', v')) (hdr_replace k v t)
  end.

(** [setHeader(k, v)] once [k] and [v] are checked:
    [headers[k.toLowerCase()] = [k, v]]. *)
Definition hdr_set (k v : string) (hs : list (string * string))
  : list (string * string) :=
  match hdr_replace k v hs with
  | Some hs' => hs'
  | None =>
      (* the key order follows the lowercased names *)
      map (fun kv => match kv with (lk, (k0, v0)) => (k0, v0) end)
        (obj_add (lower k) (k, v) (map (fun kv => (lower (fst kv), kv)) hs))
  end.

(** [res.set(k, v)] for a string [v]: Express adjusts the value, then
    Node's [setHeader] throws on an invalid name or value. *)
Definition res_set (k v : string) (hs : list (string * string))
  : res (list (string * string)) :=
  let v' := express_header_value k v in
  if valid_header_name k && valid_header_value v' then Ok (hdr_set k v' hs)
  else Throw (TypeError "Invalid header").

(** [Object.entries(h)] for an object or array [h]. *)
Definition object_entries (h : js) : list (string * js) :=
  match h with
  | JObj fs => fs
  | JArr l => combine (map (fun i => Z_to_dec (Z.of_nat i)) (seq 0 (length l))) l
  | _ => []
  end.

(** The [for ... of Object.entries(route.headers)] loop: headers set
    before a throw stay set on [res]. *)
Fixpoint set_headers (es : list (string * js)) (hs : list (string * string))
  : res unit * list (string * string) :=
  match es with
  | [] => (Ok tt, hs)
  | (k, v) :: t =>
      match res_set k (js_String v) hs with
      | Ok hs' => set_headers t hs'
      | Throw e => (Throw e, hs)
      end
  end.

(** Lines 143-151: [try { if (route.headers && typeof route.headers ===
    'object') ... } catch (err) { }]. *)
Definition apply_headers (h : js) : list (string * string) :=
  if truthy h && typeof_object h then
    match set_headers (object_entries h) [] with
    | (Ok _, hs) => hs
    | (Throw _, hs) => hs   (* ignore header errors *)
    end
  else [].

(** Lines 153-158: objects, arrays and [null] as JSON, the rest as text. *)
Definition render (v : js) : body :=
  if typeof_object v then BJson v else BText (js_String v).

(** *** Sending: [res.json] / [res.send] over Node's [http] *)

Definition is_quote (c : ascii) : bool := Nat.eqb (nat_of_ascii c) 34.

(** [qdtext] and the character after a backslash in a quoted string of
    the [content-type] package. *)
Definition qdtext (c : ascii) : bool :=
  let n := nat_of_ascii c in
  (Nat.eqb n 11 || Nat.eqb n 32 || Nat.eqb n 33 || (Nat.leb 35 n && Nat.leb n 91) ||
   (Nat.leb 93 n && Nat.leb n 126) || (Nat.leb 128 n && Nat.leb n 255))%bool.

Definition qescaped (c : ascii) : bool :=
  let n := nat_of_ascii c in (Nat.eqb n 11 || (Nat.leb 32 n && Nat.leb n 255))%bool.

(** The rest after a quoted string whose opening quote is consumed. *)
Fixpoint quoted_rest (l : list ascii) : option (list ascii) :=
  match l with
  | [] => None
  | c :: t =>
      if is_quote c then Some t
      else if Nat.eqb (nat_of_ascii c) 92 then
        match t with
        | c' :: t' => if qescaped c' then quoted_rest t' else None
        | [] => None
        end
      else if qdtext c then quoted_rest t else None
  end.

Fixpoint drop_sp (l : list ascii) : list ascii :=
  match l with
  | " "%char :: t => drop_sp t
  | _ => l
  end.

Fixpoint span_tchar (l : list ascii) : list ascii * list ascii :=
  match l with
  | c :: t => if tchar c then let '(a, r) := span_tchar t in (c :: a, r) else ([], l)
  | [] => ([], [])
  end.

(** The parameters of a media type: successive matches of
    [/; *token *= *("quoted"|token) */] covering the rest exactly. *)
Fixpoint params_ok (fuel : nat) (l : list ascii) : bool :=
  match fuel with
  | O => false
  | S f =>
      match l with
      | [] => true
      | c :: t =>
          if Ascii.eqb c ";"%char then
            let '(name, r1) := span_tchar (drop_sp t) in
            match name, drop_sp r1 with
            | _ :: _, "="%char :: r2 =>
                let r3 := drop_sp r2 in
                let r4 := match r3 with
                          | q :: r =>
                              if is_quote q then quoted_rest r
                              else match span_tchar r3 with
                                   | (_ :: _, r') => Some r'
                                   | ([], _) => None
                                   end
                          | [] => None
                          end in
                match r4 with
                | Some r5 => params_ok f (drop_sp r5)
                | None => false
                end
            | _, _ => false
            end
          else false
      end
  end.

(** [type/subtype] *)
Definition type_ok (l : list ascii) : bool :=
  match span_tchar l with
  | (_ :: _, "/"%char :: r) =>
      match span_tchar r with
      | (_ :: _, []) => true
      | _ => false
      end
  | _ => false
  end.

Fixpoint split_semi (l : list ascii) : list ascii * list ascii :=
  match l with
  | [] => ([], [])
  | c :: t =>
      if Ascii.eqb c ";"%char then ([], l)
      else let '(a, r) := split_semi t in (c :: a, r)
  end.

(** [contentType.parse(v)] succeeds: the trimmed part before the first
    [;] is [type/subtype] and the parameters parse. *)
Definition media_type_ok (v : string) : bool :=
  let '(before, after) := split_semi (list_ascii_of_string v) in
  type_ok (list_ascii_of_string (trim (string_of_list_ascii before))) &&
  params_ok (S (length after)) after.

(** [statusCode |= 0] in Node's [writeHead]: ToInt32 of the number. *)
Definition to_int32 (n : option js) : Z :=
  let t := match n with
           | Some (JNum z) => z
           | Some (JFrac m e) => Z.quot m (2 ^ (- e))
           | _ => 0
           end in
  let u := t mod 2 ^ 32 in
  if u <? 2 ^ 31 then u else u - 2 ^ 32.

(** The status code Node's [writeHead] sends for [res.statusCode = v],
    or [None] when it throws [ERR_HTTP_INVALID_STATUS_CODE]. *)
Definition status_code (v : js) : option Z :=
  let c := to_int32 (js_Number v) in
  if (100 <=? c) && (c <=? 999) then Some c else None.

(** The [Content-Type] set on [res], if any, is empty (Express then
    picks one) or parses as a media type. *)
Definition content_type_ok (hs : list (string * string)) : bool :=
  match hdr_get "Content-Type" hs with
  | Some ct => String.eqb ct "" || media_type_ok ct
  | None => true
  end.

(** No body is sent: a [HEAD] request, the codes 204, 304 and [1xx]
    (Node), or a status that is the number 205 (Express). *)
Definition body_stripped (req_method : string) (status : js) (c : Z) : bool :=
  (String.eqb req_method "HEAD" || (c =? 204) || (c =? 304) ||
   ((100 <=? c) && (c <=? 199)) ||
   match status with JNum 205 => true | _ => false end)%bool.

(** [res.status(status)] then [res.json(v)] ([b = BJson v]) or
    [res.send(s)] ([b = BText s]) in Express 4 on Node's [http], for a
    request with method [req_method] and no conditional header, after the
    handler set the headers [hs]:
    - Express sets a missing or empty [Content-Type], then rewrites a
      present one through [contentType.parse], which throws on an
      invalid media type;
    - Node's [writeHead] throws [ERR_HTTP_INVALID_STATUS_CODE] unless
      ToInt32 of the status is in [100..999];
    - no body goes out for [HEAD], for the codes 204, 304 and [1xx], and
      for a status that is the number 205. *)
Definition send (req_method : string) (status : js) (hs : list (string * string))
    (b : body) : res http_resp :=
  if negb (content_type_ok hs) then Throw (TypeError "invalid media type") else
  match status_code status with
  | None => Throw (RangeError "ERR_HTTP_INVALID_STATUS_CODE")
  | Some c => Ok (mkResp (JNum c) hs (if body_stripped req_method status c then BNone else b))
  end.

(** Lines 143-158 for a found [route]. *)
Definition serve (req_method : string) (route : route) : res http_resp :=
  send req_method (r_status route) (apply_headers (r_headers route))
    (render (r_response route)).

(** [app.all('*', (req, res) => ...)]; [req.method] and [req.path] are
    strings.  A [Throw] result is an exception out of the handler, which
    Express's error handler answers with 500. *)
Definition catch_all (req_method req_path : string) : M http_resp :=
  np <- lift (normalizePath (JStr req_path)) ;;
  let key := route_key (upper req_method) np in
  tbl <- get_routes ;;
  match map_get key tbl with
  | None => lift (send req_method (JNum 404) [] (BJson (JObj [("error", JStr "Not found")])))
  | Some route => lift (serve req_method route)
  end.

(* ------------------------------------------------------------------ *)
(** ** Derived views used in the statements *)

(** [normalizePath] on a string argument, as a total function. *)
Definition normalize_string (s : string) : string :=
  if starts_with_slash s then s else "/" ++ s.

(** A request-body property as the destructuring reads it. *)
Definition body_prop (b : js) (name : string) : js :=
  match get_prop b name with Ok v => v | Throw _ => JUndef end.




(** A route table as [register] and [loadRoutes] build it: keys are
    distinct and each entry sits under the key of its own method and
    path. *)
Definition wf_table (tbl : list (string * route)) : Prop :=
  NoDup (map fst tbl) /\
  Forall (fun kv => fst kv = route_key (r_method (snd kv)) (r_path (snd kv))) tbl.

Definition greet_body : js :=
  JObj [("path", JStr "greet"); ("response", JObj [("hi", JStr "there")]);
        ("status", JNum 201)].

Definition bad_header_route : route :=
  mkRoute "GET" "/greet" (JNum 201) (JObj [("hi", JStr "there")])
    (JObj [("X-Ok", JStr "1"); ("Bad Header", JStr "2"); ("X-Late", JStr "3")]).



(** A disk on which every write fails with ENOSPC. *)
Definition full_disk : faults :=
  mkFaults (fun _ => Some ("ENOSPC"%string, false)) (fun _ _ => None).


(** Sample inputs. *)
Definition empty_method_body : js :=
  JObj [("path", JStr "/p"); ("method", JStr ""); ("response", JStr "x")].

Definition text_status_record : js :=
  JObj [("path", JStr "/a"); ("status", JStr "abc"); ("response", JNum 1)].

Definition snapshot_A : fcontent :=
  Doc (JArr [snapshot_record (mkRoute "GET" "/a" (JNum 200) (JNum 1) (JObj []))]).

Definition snapshot_B : fcontent :=
  Doc (JArr [snapshot_record (mkRoute "GET" "/a" (JNum 200) (JNum 1) (JObj []));
             snapshot_record (mkRoute "GET" "/b" (JNum 200) (JNum 2) (JObj []))]).

(** Values in which neither [undefined] nor an infinity occurs, inside
    arrays and objects included: [JSON.stringify] then [JSON.parse] gives
    them back unchanged. *)
Fixpoint json_stable (v : js) : bool :=
  match v with
  | JUndef | JInf _ => false
  | JArr l => forallb json_stable l
  | JObj fs => forallb (fun '(_, x) => json_stable x) fs
  | _ => true
  end.

(** A stored route that the snapshot format carries without loss: a
    non-empty uppercase method, a path starting with ["/"], a truthy
    status and truthy headers, and values [JSON.stringify] carries
    unchanged (the response may also be absent). *)
Definition storable (r : route) : Prop :=
  r_method r <> "" /\ upper (r_method r) = r_method r /\
  starts_with_slash (r_path r) = true /\
  truthy (r_status r) = true /\ json_stable (r_status r) = true /\
  (r_response r = JUndef \/ json_stable (r_response r) = true) /\
  truthy (r_headers r) = true /\ json_stable (r_headers r) = true.

(** A snapshot record on which the key computation of [loadRoutes]
    throws: [null] or [undefined], a method that is truthy but not a
    string, or a path that is truthy but not a string. *)
Definition unloadable (item : js) : Prop :=
  item = JUndef \/ item = JNull \/
  (exists e, js_toUpperCase (js_or (body_prop item "method") (JStr "GET")) = Throw e) \/
  (exists e, normalizePath (body_prop item "path") = Throw e).

(** [s.split(sep)] for a one-character separator: the empty string
    gives [[""]]. *)
Fixpoint split_on (sep : ascii) (s : string) : list string :=
  match s with
  | EmptyString => [""%string]
  | String c t =>
      let r := split_on sep t in
      if Ascii.eqb c sep then ""%string :: r
      else match r with
           | x :: rs => String c x :: rs
           | [] => [String c ""]
           end
  end.

(** Lines 9-12: [(process.env.RATE_LIMIT_EXEMPT || '').split(',')
    .map(s => s.trim()).filter(Boolean)]; [None] is an unset variable. *)
Definition rate_limit_exempt_of (env : option string) : list string :=
  filter (fun x => negb (String.eqb x ""))
    (map trim (split_on ","%char (match env with Some e => e | None => ""%string end))).

(** The rate limiter over a sequence of requests [(ip, path, Date.now())]
    handled one after the other on the shared [lastRequest] map: the whole
    seconds at which the non-exempt requests of [client] were let through. *)
Fixpoint admitted_secs (window : Z) (exempt : list string)
    (lastRequest : list (string * Z)) (client : string)
    (reqs : list (string * string * Z)) : list Z :=
  match reqs with
  | [] => []
  | (ip, path, t) :: rest =>
      let (o, lr') := rate_limit window exempt lastRequest ip path t in
      let mine := (String.eqb ip client && negb (existsb (String.eqb path) exempt))%bool in
      match o with
      | RL_next => if mine then t / 1000 :: admitted_secs window exempt lr' client rest
                   else admitted_secs window exempt lr' client rest
      | RL_reply _ => admitted_secs window exempt lr' client rest
      end
  end.

(** Each element is at least [window] above the one before it ([prev] for
    the first). *)
Fixpoint spaced (window : Z) (prev : option Z) (l : list Z) : Prop :=
  match l with
  | [] => True
  | a :: t => match prev with Some p => window <= a - p | None => True end /\
              spaced window (Some a) t
  end.

(** A computation of the monad keeps the state predicate [P]. *)
Definition keeps {A} (P : St -> Prop) (m : M A) : Prop :=
  forall s, P s -> P (snd (m s)).

(** Induction over [js] that goes inside arrays and objects. *)
Section JsInd.
Variable P : js -> Prop.
Hypothesis HUndef : P JUndef.
Hypothesis HNull : P JNull.
Hypothesis HBool : forall b, P (JBool b).
Hypothesis HNum : forall n, P (JNum n).
Hypothesis HFrac : forall m e, P (JFrac m e).
Hypothesis HInf : forall neg, P (JInf neg).
Hypothesis HStr : forall s, P (JStr s).
Hypothesis HArr : forall l, Forall P l -> P (JArr l).
Hypothesis HObj : forall fs, Forall (fun kv => P (snd kv)) fs -> P (JObj fs).

Fixpoint js_ind_deep (v : js) : P v :=
  match v with
  | JUndef => HUndef
  | JNull => HNull
  | JBool b => HBool b
  | JNum n => HNum n
  | JFrac m e => HFrac m e
  | JInf neg => HInf neg
  | JStr s => HStr s
  | JArr l =>
      HArr l ((fix F (l : list js) : Forall P l :=
                 match l with
                 | [] => Forall_nil _
                 | x :: t => Forall_cons x (js_ind_deep x) (F t)
                 end) l)
  | JObj fs =>
      HObj fs ((fix F (fs : list (string * js)) : Forall (fun kv => P (snd kv)) fs :=
                  match fs with
                  | [] => Forall_nil _
                  | (k, x) :: t => Forall_cons (k, x) (js_ind_deep x) (F t)
                  end) fs)
  end.
End JsInd.

(* ================================================================== *)
(** * Properties *)

Lemma string_app_nil_r (s : string) : (s ++ "")%string = s.
Proof. induction s as [|c t IH]; simpl; [reflexivity | rewrite IH; reflexivity]. Qed.

Lemma string_app_assoc (a b c : string) : (a ++ (b ++ c))%string = ((a ++ b) ++ c)%string.
Proof. induction a as [|x t IH]; simpl; [reflexivity | rewrite IH; reflexivity]. Qed.

Lemma normalizePath_JStr (s : string) :
  normalizePath (JStr s) = Ok (normalize_string s).
Proof.
  destruct s as [|a t]; [reflexivity|].
  unfold normalizePath, normalize_string, truthy.
  replace (String.eqb (String a t) "") with false
    by (symmetry; apply String.eqb_neq; discriminate).
  simpl. destruct (Ascii.eqb a "/"%char); reflexivity.
Qed.

Lemma starts_with_slash_normalize (s : string) :
  starts_with_slash (normalize_string s) = true.
Proof.
  unfold normalize_string. destruct (starts_with_slash s) eqn:E; [exact E | reflexivity].
Qed.

(** C9: [normalizePath] maps the missing and the empty input to ["/"],
    prefixes ["/"] to a string not starting with ["/"], returns any other
    string unchanged, never throws on a string and is idempotent. *)
Theorem normalizePath_spec (s : string) :
  normalizePath JUndef = Ok "/" /\
  normalizePath (JStr "") = Ok "/" /\
  normalizePath (JStr s) = Ok (if starts_with_slash s then s else "/" ++ s) /\
  normalizePath (JStr (if starts_with_slash s then s else "/" ++ s))
    = Ok (if starts_with_slash s then s else "/" ++ s).
Proof.
  split; [reflexivity|]. split; [reflexivity|].
  pose proof (normalizePath_JStr s) as H. unfold normalize_string in H.
  split; [exact H|].
  rewrite normalizePath_JStr. fold (normalize_string s).
  unfold normalize_string at 1. rewrite starts_with_slash_normalize. reflexivity.
Qed.

Lemma existsb_eqb_In (x : string) (l : list string) :
  existsb (String.eqb x) l = true <-> In x l.
Proof.
  rewrite existsb_exists. split.
  - intros [y [Hy Heq]]. apply String.eqb_eq in Heq. subst. exact Hy.
  - intros H. exists x. split; [exact H | apply String.eqb_refl].
Qed.

Lemma map_get_set_same {V} (k : string) (v : V) (m : list (string * V)) :
  map_get k (map_set k v m) = Some v.
Proof.
  induction m as [|[k' v'] t IH]; simpl.
  - rewrite String.eqb_refl. reflexivity.
  - destruct (String.eqb k k') eqn:E; simpl.
    + rewrite String.eqb_refl. reflexivity.
    + rewrite E. exact IH.
Qed.

(** C1 (counterexample): with a 10 s window, a client with no recorded
    timestamp is rejected at second 5: an absent entry is read as 0. *)
Lemma rate_limit_unrecorded_client_rejected :
  map_get "10.0.0.1" (@nil (string * Z)) = None /\
  rate_limit 10 [] [] "10.0.0.1" "/greet" 5000
  = (RL_reply (json_resp 429 [("Retry-After", "5")]
                 (JObj [("error", JStr "Too many requests");
                        ("retry_after_seconds", JNum 5)])), []).
Proof. split; reflexivity. Qed.

(** C1 (amended): for a request to a non-exempt path, with [now] the
    time in whole seconds and [last] the recorded timestamp of [ip], or 0
    when none is recorded: if [now - last >= window] the request is
    admitted and [ip]'s timestamp becomes [now]; otherwise it is answered
    429 with [retry_after_seconds] and the [Retry-After] header both equal
    to [window - (now - last)], and the map is left unchanged. *)
Theorem rate_limit_non_exempt (window : Z) (exempt : list string)
    (lastRequest : list (string * Z)) (ip path : string) (date_now_ms : Z) :
  ~ In path exempt ->
  let now := date_now_ms / 1000 in
  let last := match map_get ip lastRequest with Some t => t | None => 0 end in
  (window <= now - last ->
     rate_limit window exempt lastRequest ip path date_now_ms
       = (RL_next, map_set ip now lastRequest) /\
     map_get ip (map_set ip now lastRequest) = Some now) /\
  (now - last < window ->
     rate_limit window exempt lastRequest ip path date_now_ms
       = (RL_reply (json_resp 429 [("Retry-After", Z_to_dec (window - (now - last)))]
                      (JObj [("error", JStr "Too many requests");
                             ("retry_after_seconds", JNum (window - (now - last)))])),
          lastRequest)).
Proof.
  intros Hex now last.
  assert (Hb : existsb (String.eqb path) exempt = false).
  { destruct (existsb (String.eqb path) exempt) eqn:E; [|reflexivity].
    apply existsb_eqb_In in E. contradiction. }
  unfold rate_limit. rewrite Hb. fold now. fold last.
  split; intros Hw.
  - replace (now - last <? window) with false by (symmetry; apply Z.ltb_ge; lia).
    split; [reflexivity | apply map_get_set_same].
  - replace (now - last <? window) with true by (symmetry; apply Z.ltb_lt; lia).
    reflexivity.
Qed.

(** C7: a request to an exempt path is admitted and leaves the map of
    timestamps unchanged, so any later request from the same client is
    decided as if the exempt one had not happened. *)
Theorem rate_limit_exempt (window : Z) (exempt : list string)
    (lastRequest : list (string * Z)) (ip path : string) (date_now_ms : Z) :
  In path exempt ->
  rate_limit window exempt lastRequest ip path date_now_ms = (RL_next, lastRequest) /\
  (forall path' date_now_ms',
     rate_limit window exempt
       (snd (rate_limit window exempt lastRequest ip path date_now_ms)) ip path' date_now_ms'
     = rate_limit window exempt lastRequest ip path' date_now_ms').
Proof.
  intros Hin.
  assert (H : rate_limit window exempt lastRequest ip path date_now_ms
              = (RL_next, lastRequest)).
  { unfold rate_limit. apply existsb_eqb_In in Hin. rewrite Hin. reflexivity. }
  split; [exact H|]. intros. rewrite H. reflexivity.
Qed.

(** C6: [loadRoutes] never throws; at startup (empty table) an absent
    snapshot leaves the state as it is, and a snapshot that cannot be
    read or parsed is logged and leaves the table empty. *)
Theorem loadRoutes_fail_open (DATA_FILE : string) (fs : list (string * fcontent))
    (df : faults) (lg : list string) :
  (forall st, fst (loadRoutes DATA_FILE st) = Ok tt) /\
  (map_get DATA_FILE fs = None ->
     loadRoutes DATA_FILE (mkSt [] fs df lg) = (Ok tt, mkSt [] fs df lg)) /\
  (map_get DATA_FILE fs = Some Garbage \/ map_get DATA_FILE fs = Some Unreadable ->
     loadRoutes DATA_FILE (mkSt [] fs df lg)
     = (Ok tt, mkSt [] fs df (lg ++ ["Failed to load routes:"]))).
Proof.
  split; [|split].
  - intros st. unfold loadRoutes, try_catch.
    lazymatch goal with
    | |- fst (match ?m with _ => _ end) = _ => destruct m as [[[]|e] s']
    end; reflexivity.
  - intros H. unfold loadRoutes, try_catch, bind, existsSync. simpl.
    rewrite H. reflexivity.
  - intros [H|H]; unfold loadRoutes, try_catch, bind, existsSync, readFile; simpl;
      rewrite H; simpl; rewrite H; reflexivity.
Qed.

Lemma loadRoutes_fail_open_witness :
  map_get "./data.json" [("./data.json", Garbage)] = Some Garbage /\
  loadRoutes "./data.json" (mkSt [] [("./data.json", Garbage)] no_faults [])
  = (Ok tt, mkSt [] [("./data.json", Garbage)] no_faults ["Failed to load routes:"]).
Proof.
  split; [reflexivity|].
  apply (proj2 (proj2 (loadRoutes_fail_open "./data.json" [("./data.json", Garbage)] no_faults []))).
  left. reflexivity.
Defined.












(** C3 (code_bug): a body with a numeric [path] and a [response] gets
    none of the three answers: [normalizePath] throws inside the async
    handler, nothing catches it, the handler's promise rejects and no
    response is sent (an unhandled rejection, which ends a Node 20
    process).  [loadRoutes], given the same record in the snapshot,
    catches the same exception and only logs it. *)
Lemma register_numeric_path_throws :
  register "./data.json" (JObj [("path", JNum 5); ("response", JStr "x")]) 0
    (mkSt [] [] no_faults [])
  = (Throw (TypeError "p.startsWith is not a function"), mkSt [] [] no_faults []) /\
  loadRoutes "./data.json"
    (mkSt [] [("./data.json", Doc (JArr [JObj [("path", JNum 5); ("response", JStr "x")]]))]
       no_faults [])
  = (Ok tt, mkSt [] [("./data.json", Doc (JArr [JObj [("path", JNum 5); ("response", JStr "x")]]))]
              no_faults ["Failed to load routes:"]).
Proof. split; reflexivity. Qed.

(** *** Route-table invariant *)


Lemma In_keys_map_set {V} (x k : string) (v : V) (m : list (string * V)) :
  In x (map fst (map_set k v m)) -> x = k \/ In x (map fst m).
Proof.
  induction m as [|[k' v'] t IH]; simpl.
  - intros [H|[]]. left. symmetry. exact H.
  - destruct (String.eqb k k') eqn:E; simpl.
    + apply String.eqb_eq in E. subst. intros [H|H]; [left; symmetry; exact H | auto].
    + intros [H|H]; [auto|]. destruct (IH H); auto.
Qed.

Lemma NoDup_keys_map_set {V} (k : string) (v : V) (m : list (string * V)) :
  NoDup (map fst m) -> NoDup (map fst (map_set k v m)).
Proof.
  induction m as [|[k' v'] t IH]; simpl; intros Hnd.
  - constructor; [intros []|constructor].
  - inversion Hnd as [|? ? Hnotin Hnd']; subst.
    destruct (String.eqb k k') eqn:E; simpl.
    + apply String.eqb_eq in E. subst. constructor; assumption.
    + constructor; [|exact (IH Hnd')].
      intros Hin. apply In_keys_map_set in Hin. destruct Hin as [H|H].
      * subst. rewrite String.eqb_refl in E. discriminate.
      * contradiction.
Qed.

Lemma Forall_map_set {V} (P : string * V -> Prop) (k : string) (v : V)
    (m : list (string * V)) :
  Forall P m -> P (k, v) -> Forall P (map_set k v m).
Proof.
  induction m as [|[k' v'] t IH]; simpl; intros Hm Hkv.
  - constructor; [exact Hkv | constructor].
  - inversion Hm; subst.
    destruct (String.eqb k k'); constructor; auto.
Qed.

Lemma wf_table_map_set (r : route) (tbl : list (string * route)) :
  wf_table tbl -> wf_table (map_set (route_key (r_method r) (r_path r)) r tbl).
Proof.
  intros [Hnd Hk]. split.
  - apply NoDup_keys_map_set. exact Hnd.
  - apply Forall_map_set; [exact Hk | reflexivity].
Qed.






(** End-to-end scenario of the specification: register [/greet], then
    [GET /greet] answers 201 with the stored object. *)
Example greet_scenario :
  let st1 := snd (register "./data.json" greet_body 1700000000000 (mkSt [] [] no_faults [])) in
  fst (catch_all "GET" "/greet" st1)
  = Ok (mkResp (JNum 201) [] (BJson (JObj [("hi", JStr "there")]))) /\
  fst (catch_all "GET" "/unregistered" st1)
  = Ok (json_resp 404 [] (JObj [("error", JStr "Not found")])).
Proof. split; vm_compute; reflexivity. Qed.

(** C2 (code_bug): the temporary name depends only on the target path
    and the millisecond clock, so two persists started in the same
    millisecond share it.  With both writes done before either rename,
    the first rename publishes the second writer's snapshot and the second
    rename fails with ENOENT (that registration answers 500). *)
Lemma atomicWriteFile_same_ms_collision :
  tmp_name "./data.json" 1700000000000 = "./data.json.1700000000000.tmp" /\
  (_ <- writeFile (tmp_name "./data.json" 1700000000000) snapshot_A ;;
   _ <- writeFile (tmp_name "./data.json" 1700000000000) snapshot_B ;;
   _ <- rename (tmp_name "./data.json" 1700000000000) "./data.json" ;;
   rename (tmp_name "./data.json" 1700000000000) "./data.json")
    (mkSt [] [] no_faults [])
  = (Throw (IOError "ENOENT"), mkSt [] [("./data.json", snapshot_B)] no_faults []).
Proof. split; vm_compute; reflexivity. Qed.

(** C4 (code_bug): a registration with method [""] is stored under
    [" /p"]; after persisting and reloading, the record's method is
    defaulted to GET and the route sits under ["GET /p"]: [GET /p] answered
    404 before the reload and answers the mock after it. *)
Lemma register_persist_reload_empty_method :
  let st1 := snd (register "./data.json" empty_method_body 1700000000000
                    (mkSt [] [] no_faults [])) in
  let st2 := snd (loadRoutes "./data.json" (mkSt [] (files st1) no_faults [])) in
  routes st1 = [(" /p", mkRoute "" "/p" (JNum 200) (JStr "x") (JObj []))] /\
  routes st2 = [("GET /p", mkRoute "GET" "/p" (JNum 200) (JStr "x") (JObj []))] /\
  fst (catch_all "GET" "/p" st1) = Ok (json_resp 404 [] (JObj [("error", JStr "Not found")])) /\
  fst (catch_all "GET" "/p" st2) = Ok (mkResp (JNum 200) [] (BText "x")).
Proof. vm_compute. repeat split. Qed.

(** C5 (code_bug): a snapshot record with [status: "abc"] is loaded with
    that string as its status, while [register] turns the same record's
    status into 200 through [Number(status) || 200]. *)
Lemma loadRoutes_keeps_text_status :
  routes (snd (loadRoutes "./data.json"
                 (mkSt [] [("./data.json", Doc (JArr [text_status_record]))] no_faults [])))
  = [("GET /a", mkRoute "GET" "/a" (JStr "abc") (JNum 1) (JObj []))] /\
  routes (snd (register "./data.json" text_status_record 0 (mkSt [] [] no_faults [])))
  = [("GET /a", mkRoute "GET" "/a" (JNum 200) (JNum 1) (JObj []))].
Proof. split; vm_compute; reflexivity. Qed.

Lemma rate_limit_non_exempt_witness :
  ~ In "/greet" (@nil string) /\
  rate_limit 10 [] [("10.0.0.1", 12)] "10.0.0.1" "/greet" 20000
  = (RL_reply (json_resp 429 [("Retry-After", "2")]
                 (JObj [("error", JStr "Too many requests");
                        ("retry_after_seconds", JNum 2)])), [("10.0.0.1", 12)]).
Proof.
  assert (Hn : ~ In "/greet" (@nil string)) by (intros []).
  split; [exact Hn|].
  apply (proj2 (rate_limit_non_exempt 10 [] [("10.0.0.1", 12)] "10.0.0.1" "/greet" 20000 Hn)).
  vm_compute. reflexivity.
Defined.

Lemma rate_limit_exempt_witness :
  In "/health" ["/health"] /\
  rate_limit 10 ["/health"] [("10.0.0.1", 12)] "10.0.0.1" "/health" 13000
  = (RL_next, [("10.0.0.1", 12)]).
Proof.
  assert (Hin : In "/health" ["/health"]) by (left; reflexivity).
  split; [exact Hin|].
  exact (proj1 (rate_limit_exempt 10 ["/health"] [("10.0.0.1", 12)] "10.0.0.1" "/health"
                  13000 Hin)).
Defined.

(* ------------------------------------------------------------------ *)
(** ** Further properties of index.js *)

Lemma jround_json_stable (v : js) : json_stable v = true -> jround v = v.
Proof.
  induction v using js_ind_deep; intros Hnu; try reflexivity;
    try (simpl in Hnu; discriminate).
  - match goal with Hf : Forall _ _ |- _ => rename Hf into HF end.
    simpl in *. f_equal. induction HF as [|x l Hx Hl IHl]; [reflexivity|].
    simpl in Hnu. apply andb_true_iff in Hnu as [H1 H2]. simpl. rewrite (IHl H2).
    destruct x; try discriminate; rewrite (Hx H1); reflexivity.
  - match goal with Hf : Forall _ _ |- _ => rename Hf into HF end.
    simpl in *. f_equal. induction HF as [|[k x] fs Hx Hl IHl]; [reflexivity|].
    simpl in Hnu. apply andb_true_iff in Hnu as [H1 H2]. simpl in Hx. simpl.
    rewrite (IHl H2).
    destruct x; try discriminate; rewrite (Hx H1); reflexivity.
Qed.

Lemma jround_JObj (fs : list (string * js)) :
  jround (JObj fs)
  = JObj (flat_map (fun kv => if is_undef (snd kv) then [] else [(fst kv, jround (snd kv))]) fs).
Proof.
  simpl. f_equal. apply flat_map_ext. intros [k x]. destruct x; reflexivity.
Qed.

Lemma truthy_not_undef (v : js) : truthy v = true -> is_undef v = false.
Proof. destruct v; easy. Qed.

Lemma json_stable_not_undef (v : js) : json_stable v = true -> is_undef v = false.
Proof. destruct v; easy. Qed.

Lemma jround_snapshot_record (r : route) :
  storable r ->
  jround (snapshot_record r)
  = JObj ([("path", JStr (r_path r)); ("method", JStr (r_method r));
           ("status", r_status r)] ++
          (if is_undef (r_response r) then [] else [("response", r_response r)]) ++
          [("headers", r_headers r)]).
Proof.
  destruct r as [m p st resp h].
  intros (Hm & Hu & Hp & Hst & Hstu & Hresp & Hh & Hhu).
  simpl in Hm, Hu, Hp, Hst, Hstu, Hresp, Hh, Hhu.
  unfold snapshot_record. rewrite jround_JObj. simpl.
  unfold js_or. rewrite Hh.
  rewrite (truthy_not_undef st Hst), (truthy_not_undef h Hh).
  rewrite (jround_json_stable st Hstu), (jround_json_stable h Hhu).
  destruct Hresp as [->|Hr]; [reflexivity|].
  rewrite (json_stable_not_undef resp Hr), (jround_json_stable resp Hr). reflexivity.
Qed.

Lemma truthy_nonempty_string (m : string) : m <> "" -> truthy (JStr m) = true.
Proof.
  intros H. simpl. destruct (String.eqb m "") eqn:E; [|reflexivity].
  apply String.eqb_eq in E. contradiction.
Qed.

Lemma load_record_steps (r : route) (s : St) :
  storable r ->
  load_key (jround (snapshot_record r)) s = (Ok tt, s) /\
  load_item (jround (snapshot_record r)) s
  = set_route (route_key (r_method r) (r_path r)) r s.
Proof.
  intros Hs. rewrite (jround_snapshot_record r Hs).
  destruct r as [m p st resp h].
  destruct Hs as (Hm & Hu & Hp & Hst & Hstu & Hresp & Hh & Hhu).
  simpl in Hm, Hu, Hp, Hst, Hstu, Hresp, Hh, Hhu.
  cbn [r_method r_path r_status r_response r_headers].
  assert (Hnorm : normalizePath (JStr p) = Ok p).
  { rewrite normalizePath_JStr. unfold normalize_string. rewrite Hp. reflexivity. }
  pose proof (truthy_nonempty_string m Hm) as Hmt.
  destruct Hresp as [->|Hr];
    [|rewrite (json_stable_not_undef resp Hr)];
    split; unfold load_key, load_item, bind, lift, js_or;
    cbn -[normalizePath truthy upper];
    rewrite ?Hmt, ?Hst, ?Hh; cbn -[normalizePath upper]; rewrite ?Hu, ?Hnorm; reflexivity.
Qed.

Lemma map_set_fresh {V} (k : string) (v : V) (m : list (string * V)) :
  ~ In k (map fst m) -> map_set k v m = (m ++ [(k, v)])%list.
Proof.
  induction m as [|[k' v'] t IH]; simpl; intros Hn; [reflexivity|].
  destruct (String.eqb k k') eqn:E.
  - apply String.eqb_eq in E. subst. exfalso. apply Hn. left. reflexivity.
  - rewrite IH; [reflexivity|]. intros H. apply Hn. right. exact H.
Qed.

Lemma forEach_load_key_records (tbl : list (string * route)) (s : St) :
  Forall (fun kv => storable (snd kv)) tbl ->
  forEachM load_key (map (fun kv => jround (snapshot_record (snd kv))) tbl) s = (Ok tt, s).
Proof.
  intros Hs. induction Hs as [|[k r] t Hr Ht IH]; [reflexivity|].
  cbn [map forEachM snd]. unfold bind at 1.
  rewrite (proj1 (load_record_steps r s Hr)). exact IH.
Qed.

Lemma forEach_load_item_records (tbl acc : list (string * route))
    (fs : list (string * fcontent)) (df : faults) (lg : list string) :
  Forall (fun kv => storable (snd kv)) tbl ->
  Forall (fun kv => fst kv = route_key (r_method (snd kv)) (r_path (snd kv))) tbl ->
  NoDup (map fst (acc ++ tbl)%list) ->
  forEachM load_item (map (fun kv => jround (snapshot_record (snd kv))) tbl)
    (mkSt acc fs df lg)
  = (Ok tt, mkSt (acc ++ tbl)%list fs df lg).
Proof.
  revert acc. induction tbl as [|[k r] t IH]; intros acc Hs Hk Hnd.
  - rewrite app_nil_r. reflexivity.
  - inversion Hs as [|? ? Hr Hst]; subst. inversion Hk as [|? ? Hkr Hkt]; subst.
    simpl in Hr, Hkr. cbn [map forEachM snd]. unfold bind at 1.
    rewrite (proj2 (load_record_steps r _ Hr)). unfold set_route. simpl.
    rewrite <- Hkr. rewrite map_set_fresh.
    + replace (acc ++ (k, r) :: t)%list with ((acc ++ [(k, r)]) ++ t)%list
        by (rewrite <- app_assoc; reflexivity).
      apply IH; [exact Hst | exact Hkt |].
      rewrite <- app_assoc. exact Hnd.
    + rewrite map_app in Hnd. simpl in Hnd.
      intros Hin. apply NoDup_remove_2 in Hnd. apply Hnd. apply in_or_app. left. exact Hin.
Qed.

Lemma persistRoutes_file (DATA_FILE : string) (date_now_ms : Z) (st : St) :
  fst (persistRoutes DATA_FILE date_now_ms st) = Ok tt ->
  map_get DATA_FILE (files (snd (persistRoutes DATA_FILE date_now_ms st)))
  = Some (Doc (jround (JArr (map (fun kv => snapshot_record (snd kv)) (routes st))))).
Proof.
  unfold persistRoutes, atomicWriteFile, bind, get_routes, writeFile, rename.
  destruct (write_fault (fs_faults st) _) as [[code []]|]; cbn [fst snd]; try discriminate.
  cbn [files fs_faults]. rewrite map_get_set_same.
  destruct (rename_fault _ _ _); cbn [fst]; [discriminate|].
  intros _. cbn [files snd]. apply map_get_set_same.
Qed.

Lemma jround_records (tbl : list (string * route)) :
  jround (JArr (map (fun kv => snapshot_record (snd kv)) tbl))
  = JArr (map (fun kv => jround (snapshot_record (snd kv))) tbl).
Proof. simpl. f_equal. rewrite map_map. apply map_ext. intros. reflexivity. Qed.

(** When [persistRoutes] succeeds on a well-formed table of storable
    routes, loading the snapshot into an empty table at the next start
    gives back the same table, in the same order, without logging
    anything. *)
Theorem persist_then_reload (DATA_FILE : string) (date_now_ms : Z) (st : St)
    (df : faults) (lg : list string) :
  fst (persistRoutes DATA_FILE date_now_ms st) = Ok tt -> wf_table (routes st) ->
  Forall (fun kv => storable (snd kv)) (routes st) ->
  let fs := files (snd (persistRoutes DATA_FILE date_now_ms st)) in
  loadRoutes DATA_FILE (mkSt [] fs df lg) = (Ok tt, mkSt (routes st) fs df lg).
Proof.
  intros Hd [Hnd Hk] Hs fs.
  pose proof (persistRoutes_file DATA_FILE date_now_ms st Hd) as Hf. fold fs in Hf.
  unfold loadRoutes, try_catch, bind, existsSync, readFile, lift. cbn [files].
  rewrite Hf. cbn [negb files]. rewrite Hf. cbn [JSON_parse]. rewrite jround_records.
  rewrite forEach_load_key_records by exact Hs.
  rewrite (forEach_load_item_records (routes st) [] fs df lg Hs Hk Hnd).
  reflexivity.
Qed.

Lemma persist_then_reload_witness :
  fst (persistRoutes "./data.json" 1700000000000
         (mkSt [("GET /greet", mkRoute "GET" "/greet" (JNum 201)
                                 (JObj [("hi", JStr "there")]) (JObj []))] [] no_faults []))
  = Ok tt /\
  loadRoutes "./data.json"
    (mkSt [] (files (snd (persistRoutes "./data.json" 1700000000000
                            (mkSt [("GET /greet", mkRoute "GET" "/greet" (JNum 201)
                                                    (JObj [("hi", JStr "there")]) (JObj []))]
                                  [] no_faults [])))) no_faults [])
  = (Ok tt, mkSt [("GET /greet", mkRoute "GET" "/greet" (JNum 201)
                                   (JObj [("hi", JStr "there")]) (JObj []))]
              (files (snd (persistRoutes "./data.json" 1700000000000
                             (mkSt [("GET /greet", mkRoute "GET" "/greet" (JNum 201)
                                                     (JObj [("hi", JStr "there")]) (JObj []))]
                                   [] no_faults [])))) no_faults []).
Proof.
  split; [reflexivity|].
  apply (persist_then_reload "./data.json" 1700000000000
           (mkSt [("GET /greet", mkRoute "GET" "/greet" (JNum 201)
                                   (JObj [("hi", JStr "there")]) (JObj []))] [] no_faults [])
           no_faults []).
  - reflexivity.
  - split; simpl.
    + constructor; [intros []|constructor].
    + constructor; [reflexivity|constructor].
  - constructor; [|constructor].
    unfold storable; simpl. repeat split; try reflexivity; try discriminate.
    right. reflexivity.
Defined.

Lemma load_key_state (item : js) (s : St) : snd (load_key item s) = s.
Proof.
  unfold load_key, bind, lift, ret.
  destruct (get_prop item "method"); [|reflexivity].
  destruct (js_toUpperCase _); [|reflexivity].
  destruct (get_prop item "path"); [|reflexivity].
  destruct (normalizePath _); reflexivity.
Qed.

Lemma get_prop_body_prop (item : js) (name : string) (a : js) :
  get_prop item name = Ok a -> a = body_prop item name.
Proof. intros H. unfold body_prop. rewrite H. reflexivity. Qed.

Lemma load_key_unloadable (item : js) (s : St) :
  unloadable item -> exists e, fst (load_key item s) = Throw e.
Proof.
  intros Hu. unfold load_key, bind, lift, ret.
  destruct Hu as [->|[->|[[e He]|[e He]]]]; [eexists; reflexivity|eexists; reflexivity| |].
  - destruct (get_prop item "method") as [a|e'] eqn:Eg; [|eexists; reflexivity].
    apply get_prop_body_prop in Eg. subst a. rewrite He. eexists; reflexivity.
  - destruct (get_prop item "method") as [a|e'] eqn:Eg; [|eexists; reflexivity].
    destruct (js_toUpperCase _); [|eexists; reflexivity].
    destruct (get_prop item "path") as [b|e''] eqn:Ep; [|eexists; reflexivity].
    apply get_prop_body_prop in Ep. subst b. rewrite He. eexists; reflexivity.
Qed.

Lemma forEach_load_key_throws (items : list js) (item : js) (s : St) :
  In item items -> unloadable item ->
  exists e, forEachM load_key items s = (Throw e, s).
Proof.
  intros Hin Hu. induction items as [|x t IH]; [destruct Hin|].
  simpl. unfold bind at 1.
  destruct (load_key x s) as [r s'] eqn:E.
  pose proof (load_key_state x s) as Hs. rewrite E in Hs. simpl in Hs. subst s'.
  destruct Hin as [->|Hin].
  - destruct (load_key_unloadable item s Hu) as [e He]. rewrite E in He. simpl in He.
    subst r. exists e. reflexivity.
  - destruct r as [[]|e]; [exact (IH Hin)|]. exists e. reflexivity.
Qed.

(** [loadRoutes] is all or nothing: when one record of the snapshot array
    makes the key computation throw, the first pass over the array throws
    before any route is set, so the table is left as it was and the
    failure is logged. *)
Theorem loadRoutes_all_or_nothing (DATA_FILE : string) (st : St) (items : list js)
    (item : js) :
  map_get DATA_FILE (files st) = Some (Doc (JArr items)) ->
  In item items -> unloadable item ->
  loadRoutes DATA_FILE st
  = (Ok tt, mkSt (routes st) (files st) (fs_faults st) (log st ++ ["Failed to load routes:"])).
Proof.
  intros Hf Hin Hu.
  destruct (forEach_load_key_throws items item st Hin Hu) as [e He].
  unfold loadRoutes, try_catch, bind, existsSync, readFile, lift.
  rewrite Hf. cbn [negb JSON_parse]. rewrite Hf. cbn [JSON_parse].
  rewrite He. reflexivity.
Qed.

Lemma loadRoutes_all_or_nothing_witness :
  map_get "./data.json"
    [("./data.json", Doc (JArr [greet_body; JObj [("path", JNum 7)]]))]
  = Some (Doc (JArr [greet_body; JObj [("path", JNum 7)]])) /\
  loadRoutes "./data.json"
    (mkSt [] [("./data.json", Doc (JArr [greet_body; JObj [("path", JNum 7)]]))] no_faults [])
  = (Ok tt, mkSt [] [("./data.json", Doc (JArr [greet_body; JObj [("path", JNum 7)]]))]
              no_faults ["Failed to load routes:"]).
Proof.
  split; [reflexivity|].
  apply (loadRoutes_all_or_nothing "./data.json"
           (mkSt [] [("./data.json", Doc (JArr [greet_body; JObj [("path", JNum 7)]]))] no_faults [])
           [greet_body; JObj [("path", JNum 7)]] (JObj [("path", JNum 7)])).
  - reflexivity.
  - right. left. reflexivity.
  - right. right. right. eexists. vm_compute. reflexivity.
Defined.

(** *** Invariants kept through the monad *)

Lemma keeps_ret {A} (P : St -> Prop) (a : A) : keeps P (ret a).
Proof. intros s H. exact H. Qed.

Lemma keeps_lift {A} (P : St -> Prop) (r : res A) : keeps P (lift r).
Proof. intros s H. exact H. Qed.

Lemma keeps_bind {A B} (P : St -> Prop) (m : M A) (f : A -> M B) :
  keeps P m -> (forall a, keeps P (f a)) -> keeps P (bind m f).
Proof.
  intros Hm Hf s H. unfold bind. specialize (Hm s H).
  destruct (m s) as [[a|e] s']; [exact (Hf a s' Hm) | exact Hm].
Qed.

Lemma keeps_try_catch {A} (P : St -> Prop) (m : M A) (h : exn -> M A) :
  keeps P m -> (forall e, keeps P (h e)) -> keeps P (try_catch m h).
Proof.
  intros Hm Hh s H. unfold try_catch. specialize (Hm s H).
  destruct (m s) as [[a|e] s']; [exact Hm | exact (Hh e s' Hm)].
Qed.

Lemma keeps_forEachM {A} (P : St -> Prop) (f : A -> M unit) (l : list A) :
  (forall x, keeps P (f x)) -> keeps P (forEachM f l).
Proof.
  intros Hf. induction l as [|x t IH]; simpl; [apply keeps_ret|].
  apply keeps_bind; [apply Hf | intros _; exact IH].
Qed.

Definition wf_state (s : St) : Prop := wf_table (routes s).

Lemma keeps_wf_set_route (m p : string) (st re h : js) :
  keeps wf_state (set_route (route_key m p) (mkRoute m p st re h)).
Proof.
  intros s H. unfold set_route, wf_state. simpl.
  apply (wf_table_map_set (mkRoute m p st re h)). exact H.
Qed.

Lemma keeps_wf_load_item (item : js) : keeps wf_state (load_item item).
Proof.
  unfold load_item.
  repeat (apply keeps_bind; [apply keeps_lift | intros ?]).
  apply keeps_wf_set_route.
Qed.

Lemma keeps_wf_loadRoutes (DATA_FILE : string) : keeps wf_state (loadRoutes DATA_FILE).
Proof.
  unfold loadRoutes. apply keeps_try_catch.
  - apply keeps_bind; [intros s H; exact H | intros ex].
    destruct (negb ex); [apply keeps_ret|].
    apply keeps_bind; [intros s H; unfold readFile; destruct (map_get _ _) as [[]|]; exact H
                      | intros raw].
    apply keeps_bind; [apply keeps_lift | intros parsed].
    apply keeps_bind.
    + destruct parsed; try apply keeps_ret.
      apply keeps_forEachM. intros x s H. pose proof (load_key_state x s) as E.
      rewrite E. exact H.
    + intros _. destruct parsed; try apply keeps_ret.
      apply keeps_forEachM. apply keeps_wf_load_item.
  - intros e s H. exact H.
Qed.

(** [loadRoutes] keeps the route table well formed: no two entries share a
    key, and every key is ["METHOD path"] of the entry it holds. *)
Theorem loadRoutes_keeps_wf (DATA_FILE : string) (st : St) :
  wf_table (routes st) -> wf_table (routes (snd (loadRoutes DATA_FILE st))).
Proof. intros H. exact (keeps_wf_loadRoutes DATA_FILE st H). Qed.

Lemma loadRoutes_keeps_wf_witness :
  wf_table (routes (snd (loadRoutes "routes.json"
    (mkSt [] [("routes.json", Doc (JArr [greet_body; greet_body]))] no_faults [])))).
Proof. apply loadRoutes_keeps_wf. unfold wf_table. simpl. split; [constructor | constructor]. Defined.

(** *** The rate limiter over several requests *)

Lemma existsb_eqb_not_In (x : string) (l : list string) :
  ~ In x l -> existsb (String.eqb x) l = false.
Proof.
  intros H. destruct (existsb (String.eqb x) l) eqn:E; [|reflexivity].
  apply existsb_eqb_In in E. contradiction.
Qed.

Lemma map_get_set_other {V} (k k' : string) (v : V) (m : list (string * V)) :
  k' <> k -> map_get k' (map_set k v m) = map_get k' m.
Proof.
  intros Hne. induction m as [|[j w] t IH]; simpl.
  - apply String.eqb_neq in Hne. rewrite Hne. reflexivity.
  - destruct (String.eqb k j) eqn:E; simpl.
    + apply String.eqb_eq in E. subst j.
      apply String.eqb_neq in Hne. rewrite Hne. reflexivity.
    + rewrite IH. reflexivity.
Qed.

(** Once a request from [ip] to a non-exempt path has been let through at
    [t1], the next non-exempt request from [ip] at [t2] is refused, with a
    retry delay of the window minus the whole seconds elapsed, exactly when
    fewer than [window] whole seconds have passed; otherwise it is let
    through and the time of [ip] becomes [t2]. *)
Theorem rate_limit_cooldown (window : Z) (exempt : list string)
    (lastRequest : list (string * Z)) (ip p1 p2 : string) (t1 t2 : Z) :
  ~ In p1 exempt -> ~ In p2 exempt ->
  fst (rate_limit window exempt lastRequest ip p1 t1) = RL_next ->
  let lr1 := snd (rate_limit window exempt lastRequest ip p1 t1) in
  let d := t2 / 1000 - t1 / 1000 in
  (d < window ->
     rate_limit window exempt lr1 ip p2 t2
       = (RL_reply (json_resp 429 [("Retry-After", Z_to_dec (window - d))]
                      (JObj [("error", JStr "Too many requests");
                             ("retry_after_seconds", JNum (window - d))])), lr1)) /\
  (window <= d ->
     rate_limit window exempt lr1 ip p2 t2 = (RL_next, map_set ip (t2 / 1000) lr1)).
Proof.
  intros H1 H2 Hnext lr1 d.
  assert (Hlr1 : lr1 = map_set ip (t1 / 1000) lastRequest).
  { subst lr1. revert Hnext. unfold rate_limit.
    rewrite (existsb_eqb_not_In p1 exempt H1).
    destruct (_ <? window); simpl; [discriminate | reflexivity]. }
  assert (Hget : map_get ip lr1 = Some (t1 / 1000))
    by (rewrite Hlr1; apply map_get_set_same).
  unfold rate_limit. rewrite (existsb_eqb_not_In p2 exempt H2), Hget.
  fold d. split; intros Hd.
  - replace (d <? window) with true by (symmetry; apply Z.ltb_lt; exact Hd).
    reflexivity.
  - replace (d <? window) with false by (symmetry; apply Z.ltb_ge; exact Hd).
    reflexivity.
Qed.

Lemma rate_limit_cooldown_witness :
  fst (rate_limit 10 ["/health"] [] "1.2.3.4" "/a" 50000) = RL_next /\
  rate_limit 10 ["/health"] (snd (rate_limit 10 ["/health"] [] "1.2.3.4" "/a" 50000))
    "1.2.3.4" "/b" 53999
  = (RL_reply (json_resp 429 [("Retry-After", Z_to_dec (10 - (53999 / 1000 - 50000 / 1000)))]
       (JObj [("error", JStr "Too many requests");
              ("retry_after_seconds", JNum (10 - (53999 / 1000 - 50000 / 1000)))])),
     snd (rate_limit 10 ["/health"] [] "1.2.3.4" "/a" 50000)).
Proof.
  assert (H1 : ~ In "/a"%string ["/health"%string]) by (simpl; intros [H|[]]; discriminate).
  assert (H2 : ~ In "/b"%string ["/health"%string]) by (simpl; intros [H|[]]; discriminate).
  assert (Hn : fst (rate_limit 10 ["/health"] [] "1.2.3.4" "/a" 50000) = RL_next)
    by reflexivity.
  split; [exact Hn|].
  apply (proj1 (rate_limit_cooldown 10 ["/health"] [] "1.2.3.4" "/a" "/b" 50000 53999 H1 H2 Hn)).
  vm_compute. reflexivity.
Defined.

(** The rate limiter only ever touches the entry of the requesting client:
    the recorded time of every other client is left as it was. *)
Theorem rate_limit_other_clients (window : Z) (exempt : list string)
    (lastRequest : list (string * Z)) (ip ip' path : string) (date_now_ms : Z) :
  ip' <> ip ->
  map_get ip' (snd (rate_limit window exempt lastRequest ip path date_now_ms))
    = map_get ip' lastRequest.
Proof.
  intros Hne. unfold rate_limit.
  destruct (existsb _ _); [reflexivity|].
  destruct (_ <? window); [reflexivity|].
  simpl. apply map_get_set_other. exact Hne.
Qed.

Lemma rate_limit_other_clients_witness :
  map_get "5.5.5.5" (snd (rate_limit 10 [] [("5.5.5.5", 7)] "1.1.1.1" "/x" 99000))
    = Some 7.
Proof.
  rewrite (rate_limit_other_clients 10 [] [("5.5.5.5", 7)] "1.1.1.1" "5.5.5.5" "/x" 99000);
    [reflexivity | discriminate].
Defined.

(** *** Serving registered routes *)



Lemma upper_app (a b : string) : upper (a ++ b) = (upper a ++ upper b)%string.
Proof.
  induction a as [|c t IH]; simpl; [reflexivity|].
  rewrite IH. apply string_app_assoc.
Qed.

Lemma upper_char_idem (c : ascii) : upper (upper_char c) = upper_char c.
Proof. destruct c as [[] [] [] [] [] [] [] []]; reflexivity. Qed.

Lemma upper_idem (s : string) : upper (upper s) = upper s.
Proof.
  induction s as [|c t IH]; simpl; [reflexivity|].
  rewrite upper_app, upper_char_idem, IH. reflexivity.
Qed.

Lemma normalize_string_idem (s : string) :
  normalize_string (normalize_string s) = normalize_string s.
Proof.
  unfold normalize_string at 1. rewrite starts_with_slash_normalize. reflexivity.
Qed.

(** The catch-all looks routes up by the uppercased method and the
    normalized path only: two requests whose methods have the same
    upper-case form and are both or neither exactly ["HEAD"] (the one
    method whose answer has no body), and whose paths normalize alike, get
    the same answer, and the state is left as it was. *)
Theorem catch_all_canonical (m1 m2 p1 p2 : string) (st : St) :
  upper m1 = upper m2 -> String.eqb m1 "HEAD" = String.eqb m2 "HEAD" ->
  normalize_string p1 = normalize_string p2 ->
  catch_all m1 p1 st = catch_all m2 p2 st /\ snd (catch_all m1 p1 st) = st.
Proof.
  intros Hu Hh Hp. unfold catch_all, bind, lift, get_routes. rewrite !normalizePath_JStr.
  rewrite Hu, Hp. split.
  - destruct (map_get _ _); unfold serve, send, body_stripped; rewrite Hh; reflexivity.
  - destruct (map_get _ _); reflexivity.
Qed.

Lemma catch_all_canonical_witness :
  catch_all "get" "greet" (mkSt [("GET /greet", bad_header_route)] [] no_faults [])
  = catch_all "GET" "/greet" (mkSt [("GET /greet", bad_header_route)] [] no_faults []).
Proof.
  exact (proj1 (catch_all_canonical "get" "GET" "greet" "/greet"
                  (mkSt [("GET /greet", bad_header_route)] [] no_faults [])
                  eq_refl eq_refl eq_refl)).
Defined.


(** *** Headers of a served route *)







(** *** The atomic write *)

Lemma map_get_del {V} (q k : string) (m : list (string * V)) :
  map_get q (map_del k m) = if String.eqb q k then None else map_get q m.
Proof.
  unfold map_del. induction m as [|[j w] t IH]; simpl.
  - destruct (String.eqb q k); reflexivity.
  - destruct (String.eqb j k) eqn:Ejk; simpl.
    + apply String.eqb_eq in Ejk. subst j. rewrite IH.
      destruct (String.eqb q k); reflexivity.
    + rewrite IH. destruct (String.eqb q k) eqn:Eqk; [|reflexivity].
      apply String.eqb_eq in Eqk. subst q. rewrite String.eqb_sym, Ejk. reflexivity.
Qed.

Lemma append_neq_self (p x : string) : x <> ""%string -> (p ++ x)%string <> p.
Proof.
  intros Hx. induction p as [|c t IH]; simpl; [exact Hx|].
  intros H. injection H as H. exact (IH H).
Qed.

Lemma tmp_name_neq (path : string) (date_now_ms : Z) : tmp_name path date_now_ms <> path.
Proof. unfold tmp_name. apply append_neq_self. discriminate. Qed.

(** [atomicWriteFile] succeeds exactly when neither the write of the
    temporary file nor its rename onto the target fails.  On success the
    target holds the data, no temporary file is left behind and every
    other file is unchanged; on failure the target is untouched (the
    temporary file may stay, truncated or complete).  The routes, the log
    and the faults are unchanged either way. *)
Theorem atomicWriteFile_outcome (path : string) (data : fcontent) (date_now_ms : Z)
    (st : St) :
  let tmp := tmp_name path date_now_ms in
  let r := atomicWriteFile path data date_now_ms st in
  (fst r = Ok tt <->
   write_fault (fs_faults st) tmp = None /\ rename_fault (fs_faults st) tmp path = None) /\
  routes (snd r) = routes st /\ log (snd r) = log st /\ fs_faults (snd r) = fs_faults st /\
  (fst r = Ok tt ->
   map_get path (files (snd r)) = Some data /\
   map_get tmp (files (snd r)) = None /\
   (forall q, q <> path -> q <> tmp -> map_get q (files (snd r)) = map_get q (files st))) /\
  (forall e, fst r = Throw e -> map_get path (files (snd r)) = map_get path (files st)).
Proof.
  cbv zeta. assert (Hne : tmp_name path date_now_ms <> path) by apply tmp_name_neq.
  unfold atomicWriteFile. cbv zeta.
  set (tmp := tmp_name path date_now_ms). fold tmp in Hne.
  unfold bind, writeFile, rename.
  destruct (write_fault (fs_faults st) tmp) as [[code []]|] eqn:Hw;
    cbn [fst snd routes log fs_faults files].
  - split; [split; [discriminate | intros [H _]; discriminate]|].
    repeat split; try discriminate.
    intros e _. apply map_get_set_other. intros H. apply Hne. symmetry. exact H.
  - split; [split; [discriminate | intros [H _]; discriminate]|].
    repeat split; discriminate.
  - rewrite map_get_set_same. cbn [fs_faults].
    destruct (rename_fault (fs_faults st) tmp path) as [code|] eqn:Hr;
      cbn [fst snd routes log fs_faults files].
    + split; [split; [discriminate | intros [_ H]; discriminate]|].
      repeat split; try discriminate.
      intros e _. apply map_get_set_other. intros H. apply Hne. symmetry. exact H.
    + split; [split; [intros _; split; reflexivity | reflexivity]|].
      repeat split; try discriminate.
      * apply map_get_set_same.
      * rewrite map_get_set_other by exact Hne.
        rewrite map_get_del, String.eqb_refl. reflexivity.
      * intros q Hq Ht. rewrite map_get_set_other by exact Hq.
        rewrite map_get_del. destruct (String.eqb_neq q tmp) as [_ Hf]. rewrite (Hf Ht).
        apply map_get_set_other. exact Ht.
Qed.

Lemma atomicWriteFile_outcome_witness :
  fst (atomicWriteFile "data.json" (Doc JNull) 5 (mkSt [] [] full_disk [])) <> Ok tt /\
  map_get "data.json"
    (files (snd (atomicWriteFile "data.json" (Doc JNull) 5
                  (mkSt [] [("data.json", Garbage)] no_faults [])))) = Some (Doc JNull).
Proof.
  split.
  - intros H.
    destruct (proj1 (proj1 (atomicWriteFile_outcome "data.json" (Doc JNull) 5
                              (mkSt [] [] full_disk []))) H) as [Hw _].
    discriminate Hw.
  - destruct (atomicWriteFile_outcome "data.json" (Doc JNull) 5
                (mkSt [] [("data.json", Garbage)] no_faults [])) as (_ & _ & _ & _ & H & _).
    exact (proj1 (H eq_refl)).
Defined.

(** *** The exemption list read from the environment *)


Lemma rev_string_app (a b : string) :
  rev_string (a ++ b) = (rev_string b ++ rev_string a)%string.
Proof.
  induction a as [|c t IH]; simpl.
  - rewrite string_app_nil_r. reflexivity.
  - rewrite IH, string_app_assoc. reflexivity.
Qed.

Lemma rev_string_involutive (s : string) : rev_string (rev_string s) = s.
Proof.
  induction s as [|c t IH]; simpl; [reflexivity|].
  rewrite rev_string_app, IH. reflexivity.
Qed.

Lemma drop_spaces_idem (s : string) : drop_spaces (drop_spaces s) = drop_spaces s.
Proof.
  induction s as [|c t IH]; simpl; [reflexivity|].
  destruct (is_space c) eqn:E; [exact IH | simpl; rewrite E; reflexivity].
Qed.

Lemma drop_spaces_suffix (s : string) : exists p, s = (p ++ drop_spaces s)%string.
Proof.
  induction s as [|c t [p Hp]]; simpl; [exists ""%string; reflexivity|].
  destruct (is_space c).
  - exists (String c p). simpl. rewrite <- Hp. reflexivity.
  - exists ""%string. reflexivity.
Qed.

Lemma drop_spaces_head (s : string) :
  drop_spaces s = ""%string \/
  exists c t, drop_spaces s = String c t /\ is_space c = false.
Proof.
  induction s as [|c t IH]; simpl; [left; reflexivity|].
  destruct (is_space c) eqn:E; [exact IH | right; exists c, t; split; [reflexivity | exact E]].
Qed.

Lemma trim_no_trailing (x : string) :
  drop_spaces (rev_string (trim x)) = rev_string (trim x).
Proof.
  unfold trim. rewrite rev_string_involutive. apply drop_spaces_idem.
Qed.

Lemma trim_no_leading (x : string) : drop_spaces (trim x) = trim x.
Proof.
  unfold trim. set (u := drop_spaces x). set (w := drop_spaces (rev_string u)).
  destruct (rev_string w) as [|c t] eqn:Er; [reflexivity|].
  destruct (drop_spaces_suffix (rev_string u)) as [p Hp]. fold w in Hp.
  assert (Hu : u = (rev_string w ++ rev_string p)%string).
  { rewrite <- (rev_string_involutive u), Hp, rev_string_app. reflexivity. }
  rewrite Er in Hu. simpl in Hu.
  destruct (drop_spaces_head x) as [H0|(c' & t' & Hc & Hs)].
  - fold u in H0. rewrite H0 in Hu. discriminate.
  - fold u in Hc. rewrite Hc in Hu. injection Hu as Hcc _. subst c'. simpl. rewrite Hs. reflexivity.
Qed.

(** Every path of the exemption list built from [RATE_LIMIT_EXEMPT] is
    non-empty and has no leading or trailing whitespace, whatever the
    variable holds. *)
Theorem rate_limit_exempt_entries (env : option string) (e : string) :
  In e (rate_limit_exempt_of env) ->
  e <> ""%string /\ drop_spaces e = e /\ drop_spaces (rev_string e) = rev_string e.
Proof.
  unfold rate_limit_exempt_of. intros H. apply filter_In in H. destruct H as [Hin He].
  apply in_map_iff in Hin. destruct Hin as [x [Hx _]]. subst e.
  split; [| split; [apply trim_no_leading | apply trim_no_trailing]].
  intros E. rewrite E in He. discriminate.
Qed.

Lemma rate_limit_exempt_entries_witness :
  rate_limit_exempt_of (Some " /health ,, /__routes") = ["/health"; "/__routes"]%string /\
  drop_spaces "/health" = "/health"%string.
Proof.
  split; [vm_compute; reflexivity|].
  exact (proj1 (proj2 (rate_limit_exempt_entries (Some " /health ,, /__routes") "/health"
                         ltac:(vm_compute; left; reflexivity)))).
Defined.

(** *** The rate limiter over a run of requests *)

(** Over any sequence of requests handled one after the other, the
    non-exempt requests let through for one client are at least
    [window] whole seconds apart, each from the previous one (and from the
    time recorded before the run), whatever other clients and exempt
    paths do in between. *)
Theorem rate_limit_spacing (window : Z) (exempt : list string)
    (lastRequest : list (string * Z)) (client : string)
    (reqs : list (string * string * Z)) :
  spaced window (map_get client lastRequest)
    (admitted_secs window exempt lastRequest client reqs).
Proof.
  revert lastRequest. induction reqs as [|[[ip path] t] rest IH]; intros lr; simpl; [exact I|].
  destruct (existsb (String.eqb path) exempt) eqn:Ex.
  - unfold rate_limit. rewrite Ex. rewrite andb_false_r. apply IH.
  - unfold rate_limit. rewrite Ex. rewrite andb_true_r.
    set (last := match map_get ip lr with Some x => x | None => 0 end).
    destruct (t / 1000 - last <? window) eqn:Ew; [apply IH|].
    apply Z.ltb_ge in Ew.
    destruct (String.eqb ip client) eqn:Ei.
    + apply String.eqb_eq in Ei. subst ip. simpl. split.
      * subst last. destruct (map_get client lr); [exact Ew | exact I].
      * rewrite <- (map_get_set_same client (t / 1000) lr). apply IH.
    + apply String.eqb_neq in Ei.
      rewrite <- (map_get_set_other ip client (t / 1000) lr (fun E => Ei (eq_sym E))).
      apply IH.
Qed.
